(** * personal-userbot: rule engine, rule store and rule-authoring dialogue

    A shallow embedding of [src/personal_userbot/rules.py] and of the message
    handler of [src/personal_userbot/runner.py], with the properties of the
    specification stated and proved over it.

    Conventions of the model.
    - Python [str] is [string]; the model covers ASCII text, where
      [str.casefold] and [str.lower] coincide and the white space of
      [str.strip] and of the regular expression class [\s] is the set of code
      points 9-13, 28-31 and 32.
    - Python [int] is [Z]; a set of chat ids is a [gset Z]; the dictionary of
      pending sessions is a [gmap Z PendingRuleSession].
    - The rules file is modelled by what [Path.exists], [Path.read_text] and
      [json.loads] make of it (see [file_content]); [json.dumps] followed by
      [json.loads] is the identity on the values [save_rules] writes.
    - The handler is a function from the state it closes over and one event
      to the new state and the list of actions it performs, in order. *)

From Stdlib Require Import ZArith String Ascii DecimalString DecimalPos.
From stdpp Require Import gmap strings list sorting.

Open Scope string_scope.
#[local] Set Warnings "-clear-no-such-hyp".

(** ** Text primitives *)

Definition is_space (c : ascii) : bool :=
  let n := nat_of_ascii c in
  ((9 <=? n)%nat && (n <=? 13)%nat) || ((28 <=? n)%nat && (n <=? 32)%nat).

Definition is_digit (c : ascii) : bool :=
  let n := nat_of_ascii c in (48 <=? n)%nat && (n <=? 57)%nat.

Definition lower_char (c : ascii) : ascii :=
  let n := nat_of_ascii c in
  if (65 <=? n)%nat && (n <=? 90)%nat then ascii_of_nat (n + 32) else c.

(** [str.lower] *)
Fixpoint lower (s : string) : string :=
  match s with
  | EmptyString => EmptyString
  | String c s' => String (lower_char c) (lower s')
  end.

(** [str.casefold]; on ASCII text it is [str.lower]. *)
Definition casefold (s : string) : string := lower s.

Fixpoint lstrip (s : string) : string :=
  match s with
  | EmptyString => EmptyString
  | String c s' => if is_space c then lstrip s' else s
  end.

Fixpoint rstrip (s : string) : string :=
  match s with
  | EmptyString => EmptyString
  | String c s' =>
      match rstrip s' with
      | EmptyString => if is_space c then EmptyString else String c EmptyString
      | r => String c r
      end
  end.

(** [str.strip] *)
Definition strip (s : string) : string := lstrip (rstrip s).

(** Truth value of a Python [str]. *)
Definition nonempty (s : string) : bool :=
  match s with EmptyString => false | _ => true end.

(** [needle in hay] on strings. *)
Fixpoint contains (needle hay : string) : bool :=
  String.prefix needle hay ||
  match hay with
  | EmptyString => false
  | String _ hay' => contains needle hay'
  end.

(** [", ".join(...)] and friends. *)
Fixpoint join (sep : string) (l : list string) : string :=
  match l with
  | [] => ""
  | [x] => x
  | x :: l' => x ++ sep ++ join sep l'
  end.

(** [str(n)] for an [int]. *)
Definition str_of_Z (z : Z) : string := NilZero.string_of_int (Z.to_int z).

(** ** Keyword-list parsing ([_parse_keywords] in [run]) *)

Definition is_sep (c : ascii) : bool :=
  Ascii.eqb c "," || Ascii.eqb c "010" || Ascii.eqb c ";".

Definition starts_with_sep (s : string) : bool :=
  match s with
  | EmptyString => false
  | String c _ => is_sep c
  end.

(** [re.split(r"[,\n;]+", s)]: the pieces between the maximal runs of
    separators; a run at either end leaves an empty piece there. *)
Fixpoint re_split (s : string) : list string :=
  match s with
  | EmptyString => [""]
  | String c s' =>
      if is_sep c then
        if starts_with_sep s' then re_split s' else "" :: re_split s'
      else
        match re_split s' with
        | p :: ps => String c p :: ps
        | [] => [String c ""]
        end
  end.

Definition is_skip_word (s : string) : bool :=
  String.eqb s "-" || String.eqb s "skip" || String.eqb s "none".

Definition _parse_keywords (raw : string) : list string :=
  let cleaned := strip raw in
  if negb (nonempty cleaned) then []
  else if is_skip_word (lower cleaned) then []
  else List.filter nonempty (List.map strip (re_split cleaned)).

Definition _fmt_keywords (keywords : list string) : string :=
  match keywords with
  | [] => "-"
  | _ => join ", " keywords
  end.

(** ** Python values read from JSON

    [json.loads] yields [None], [bool], [int], [str], [list] and [dict]
    values (numbers with a fraction are outside the model).  A [dict] is the
    list of its items in insertion order, with distinct keys. *)

#[warnings="-register-all"]
Inductive json : Type :=
| JNull
| JBool (b : bool)
| JInt (z : Z)
| JStr (s : string)
| JList (l : list json)
| JDict (items : list (string * json)).

(** Truth value of a Python object. *)
Definition truthy (v : json) : bool :=
  match v with
  | JNull => false
  | JBool b => b
  | JInt z => negb (z =? 0)%Z
  | JStr s => nonempty s
  | JList l => match l with [] => false | _ => true end
  | JDict d => match d with [] => false | _ => true end
  end.

(** [a or b] *)
Definition py_or (a b : json) : json := if truthy a then a else b.

(** [d.get(key)]; an absent key gives [None]. *)
Fixpoint dict_get (d : list (string * json)) (key : string) : json :=
  match d with
  | [] => JNull
  | (k, v) :: d' => if String.eqb k key then v else dict_get d' key
  end.

Definition hex_digit (n : nat) : ascii :=
  if (n <? 10)%nat then ascii_of_nat (48 + n) else ascii_of_nat (87 + n).

Definition repr_char (quote c : ascii) : string :=
  let n := nat_of_ascii c in
  if Ascii.eqb c "\" then "\\"
  else if Ascii.eqb c quote then String "\" (String quote "")
  else if Ascii.eqb c "009" then "\t"
  else if Ascii.eqb c "010" then "\n"
  else if Ascii.eqb c "013" then "\r"
  else if (n <? 32)%nat || (n =? 127)%nat then
    String "\" (String "x" (String (hex_digit (n / 16)) (String (hex_digit (n mod 16)) "")))
  else String c "".

Fixpoint has_char (c : ascii) (s : string) : bool :=
  match s with
  | EmptyString => false
  | String c' s' => Ascii.eqb c c' || has_char c s'
  end.

Fixpoint escape (quote : ascii) (s : string) : string :=
  match s with
  | EmptyString => ""
  | String c s' => repr_char quote c ++ escape quote s'
  end.

(** [repr(s)] for a [str]. *)
Definition repr_str (s : string) : string :=
  let quote : ascii := if has_char "'" s && negb (has_char "034" s) then "034"%char else "'"%char in
  String quote (escape quote s) ++ String quote "".

(** [repr(v)] *)
Fixpoint py_repr (v : json) : string :=
  match v with
  | JNull => "None"
  | JBool b => if b then "True" else "False"
  | JInt z => str_of_Z z
  | JStr s => repr_str s
  | JList l => "[" ++ join ", " (List.map py_repr l) ++ "]"
  | JDict d =>
      "{" ++ join ", " (List.map (fun kv => repr_str (fst kv) ++ ": " ++ py_repr (snd kv)) d) ++ "}"
  end.

(** [str(v)], also what an f-string makes of [{v}]. *)
Definition py_str (v : json) : string :=
  match v with
  | JStr s => s
  | _ => py_repr v
  end.

Definition digit_value (c : ascii) : Z := Z.of_nat (nat_of_ascii c - 48).

(** The digits of an [int] literal; single underscores may separate them. *)
Fixpoint digits_value (acc : Z) (after_digit : bool) (s : string) : option Z :=
  match s with
  | EmptyString => if after_digit then Some acc else None
  | String c s' =>
      if is_digit c then digits_value (10 * acc + digit_value c) true s'
      else if Ascii.eqb c "_" && after_digit then digits_value acc false s'
      else None
  end.

(** [int(s)] for a [str]; [None] stands for [ValueError]. *)
Definition int_of_str (s : string) : option Z :=
  match strip s with
  | String "-" r => Z.opp <$> digits_value 0 false r
  | String "+" r => digits_value 0 false r
  | t => digits_value 0 false t
  end.

(** [int(v)]; [None] stands for [TypeError] or [ValueError]. *)
Definition py_int (v : json) : option Z :=
  match v with
  | JBool b => Some (if b then 1 else 0)%Z
  | JInt z => Some z
  | JStr s => int_of_str s
  | JNull | JList _ | JDict _ => None
  end.

(** ** Exceptions *)

Inductive exception : Type :=
| RuntimeError (message : string)
| ValueError (message : string).


Inductive result (A : Type) : Type :=
| Ok (a : A)
| Raise (e : exception).
Arguments Ok {A} a.
Arguments Raise {A} e.

Definition bind {A B : Type} (r : result A) (k : A -> result B) : result B :=
  match r with
  | Ok a => k a
  | Raise e => Raise e
  end.

Notation "x <- r ;; k" := (bind r (fun x => k))
  (at level 100, r at next level, right associativity).

(** ** rules.py *)

Record Rule : Type := {
  label : string;
  include_all : list string;
  include_any : list string;
  exclude : list string;
  chat_ids : option (gset Z)
}.

(** Truth value of [rule.chat_ids]: neither [None] nor the empty set. *)
Definition scoped (chat_ids : option (gset Z)) : bool :=
  match chat_ids with
  | None => false
  | Some s => negb (bool_decide (s = ∅))
  end.

Definition applies_to_chat (self : Rule) (chat_id : option Z) : bool :=
  match chat_id, chat_ids self with
  | None, _ => true
  | _, None => true
  | Some c, Some s => bool_decide (c ∈ s)
  end.

(** Truth value of a Python list. *)
Definition nonempty_list {A : Type} (l : list A) : bool :=
  match l with [] => false | _ => true end.

(** [keyword.casefold() in normalized] *)
Definition keyword_in (normalized keyword : string) : bool :=
  contains (casefold keyword) normalized.

Module RuleSet.

Record t : Type := {
  _rules : list Rule;
  _chat_ids : gset Z
}.

Fixpoint _rebuild_chat_cache_loop (chat_ids0 : gset Z) (rules : list Rule) : gset Z :=
  match rules with
  | [] => chat_ids0
  | rule :: rest =>
      _rebuild_chat_cache_loop
        (match chat_ids rule with
         | Some s => if scoped (Some s) then chat_ids0 ∪ s else chat_ids0
         | None => chat_ids0
         end) rest
  end.

Definition _rebuild_chat_cache (rules : list Rule) : gset Z :=
  _rebuild_chat_cache_loop ∅ rules.

(** [RuleSet(rules)] *)
Definition init (rules : list Rule) : t :=
  {| _rules := rules; _chat_ids := _rebuild_chat_cache rules |}.

Definition rules (self : t) : list Rule := _rules self.

Definition add_rule (self : t) (rule : Rule) : t :=
  {| _rules := _rules self ++ [rule];
     _chat_ids :=
       match chat_ids rule with
       | Some s => if scoped (Some s) then _chat_ids self ∪ s else _chat_ids self
       | None => _chat_ids self
       end |}.

Definition replace (self : t) (rules : list Rule) : t := init rules.

(** The loop of [match], over the rules still to visit. *)
Fixpoint match_loop (chat_id : option Z) (normalized : string) (rules : list Rule)
  : list Rule :=
  match rules with
  | [] => []
  | rule :: rest =>
      if negb (applies_to_chat rule chat_id) then
        match_loop chat_id normalized rest
      else if nonempty_list (include_all rule)
              && negb (forallb (keyword_in normalized) (include_all rule)) then
        match_loop chat_id normalized rest
      else if nonempty_list (include_any rule)
              && negb (existsb (keyword_in normalized) (include_any rule)) then
        match_loop chat_id normalized rest
      else if nonempty_list (exclude rule)
              && existsb (keyword_in normalized) (exclude rule) then
        match_loop chat_id normalized rest
      else rule :: match_loop chat_id normalized rest
  end.

(** [RuleSet.match] ([match] is a keyword here). *)
Definition match_ (self : t) (chat_id : option Z) (text : string) : list Rule :=
  match_loop chat_id (casefold text) (_rules self).

(** The [chat_ids] property: [self._chat_ids or None]. *)
Definition chat_ids (self : t) : option (gset Z) :=
  if bool_decide (_chat_ids self = ∅) then None else Some (_chat_ids self).

End RuleSet.

(** What the file system and [json.loads] make of the rules file. *)
Inductive file_content : Type :=
| Missing                      (* [path.exists()] is false *)
| Unreadable (exc : string)    (* [read_text] raises [OSError] *)
| Blank                        (* the text is empty once stripped *)
| Malformed (exc : string)     (* [json.loads] raises [JSONDecodeError] *)
| Parsed (data : json).        (* [json.loads] returns [data] *)

Definition _ensure_list (value : json) (field label : string) : result (list string) :=
  match value with
  | JNull => Ok []
  | JStr s => Ok [s]
  | JList l => Ok (List.map py_str l)
  | _ =>
      Raise (ValueError
        ("Field '" ++ field ++ "' for rule '" ++ label ++ "' must be a string or list."))
  end.

Fixpoint _parse_chat_ids_loop (chat_ids0 : gset Z) (items : list json) (label : string)
  : result (gset Z) :=
  match items with
  | [] => Ok chat_ids0
  | item :: rest =>
      match py_int item with
      | Some z => _parse_chat_ids_loop (chat_ids0 ∪ {[z]}) rest label
      | None =>
          Raise (ValueError
            ("Invalid chat id '" ++ py_str item ++ "' for rule '" ++ label ++ "'."))
      end
  end.

Definition _parse_chat_ids (value : json) (label : string) : result (option (gset Z)) :=
  match value with
  | JNull => Ok None
  | JList items =>
      s <- _parse_chat_ids_loop ∅ items label ;;
      Ok (if bool_decide (s = ∅) then None else Some s)
  | _ =>
      Raise (ValueError
        ("Field 'chats' for rule '" ++ label ++ "' must be a list of integers."))
  end.

(** The body of the loop of [load_rules], for one entry of the file. *)
Definition load_rule (raw : json) : result Rule :=
  match raw with
  | JDict d =>
      let label :=
        strip (py_str (py_or (py_or (dict_get d "label") (dict_get d "name")) (JStr ""))) in
      if negb (nonempty label) then
        Raise (RuntimeError "Setiap rule wajib memiliki field 'label'.")
      else
        include_all <-
          _ensure_list (py_or (dict_get d "include_all") (dict_get d "include"))
                       "include_all" label ;;
        include_any <- _ensure_list (dict_get d "include_any") "include_any" label ;;
        exclude <- _ensure_list (dict_get d "exclude") "exclude" label ;;
        chat_ids <- _parse_chat_ids (dict_get d "chats") label ;;
        if negb (nonempty_list include_all) && negb (nonempty_list include_any) then
          Raise (RuntimeError
            ("Rule '" ++ label ++ "' perlu setidaknya satu keyword via "
             ++ "'include_all' atau 'include_any'."))
        else
          Ok {| label := label; include_all := include_all; include_any := include_any;
                exclude := exclude; chat_ids := chat_ids |}
  | _ => Raise (RuntimeError "Setiap rule harus berbentuk objek dengan key-value.")
  end.

Fixpoint load_rules_loop (rules : list Rule) (raw_rules : list json) : result (list Rule) :=
  match raw_rules with
  | [] => Ok rules
  | raw :: rest =>
      rule <- load_rule raw ;;
      load_rules_loop (rules ++ [rule]) rest
  end.

Definition load_rules (path : string) (file : file_content) : result RuleSet.t :=
  match file with
  | Missing => Ok (RuleSet.init [])
  | Unreadable exc =>
      Raise (RuntimeError ("Tidak bisa membaca file rules '" ++ path ++ "': " ++ exc))
  | Blank => Ok (RuleSet.init [])
  | Malformed exc =>
      Raise (RuntimeError
        ("Rules file '" ++ path ++ "' tidak valid. Periksa format JSON: " ++ exc))
  | Parsed data =>
      raw_rules <-
        match data with
        | JDict d => Ok (py_or (dict_get d "rules") (JList []))
        | JList _ => Ok data
        | _ =>
            Raise (RuntimeError
              ("Rules file '" ++ path
               ++ "' harus berupa objek dengan field 'rules' atau list."))
        end ;;
      match raw_rules with
      | JList l =>
          rules <- load_rules_loop [] l ;;
          Ok (RuleSet.init rules)
      | _ => Raise (RuntimeError ("Field 'rules' pada '" ++ path ++ "' harus berupa list."))
      end
  end.

(** [sorted(s)] for a set of integers. *)
Definition sorted (s : gset Z) : list Z := merge_sort Z.le (elements s).

(** One entry of the list [save_rules] serialises. *)
Definition save_entry (rule : Rule) : json :=
  JDict
    ([("label", JStr (label rule));
      ("include_all", JList (List.map JStr (include_all rule)));
      ("include_any", JList (List.map JStr (include_any rule)));
      ("exclude", JList (List.map JStr (exclude rule)))]
     ++ match chat_ids rule with
        | Some s => if scoped (Some s) then [("chats", JList (List.map JInt (sorted s)))] else []
        | None => []
        end).

(** [save_rules]: the content of the file at [path] afterwards. *)
Definition save_rules (path : string) (rules : list Rule) : file_content :=
  let serialized := List.map save_entry rules in
  let payload := JDict [("rules", JList serialized)] in
  Parsed payload.

Module RuleRepository.

Record t : Type := {
  _path : string;
  _ruleset : RuleSet.t
}.

(** [RuleRepository(path)], given the content of the file at [path]. *)
Definition init (path : string) (file : file_content) : result t :=
  ruleset <- load_rules path file ;;
  Ok {| _path := path; _ruleset := ruleset |}.

Definition path (self : t) : string := _path self.
Definition ruleset (self : t) : RuleSet.t := _ruleset self.

(** The repository and the content of its file after [add_rule]. *)
Definition add_rule (self : t) (rule : Rule) : t * file_content :=
  let ruleset' := RuleSet.add_rule (_ruleset self) rule in
  ({| _path := _path self; _ruleset := ruleset' |},
   save_rules (_path self) (RuleSet.rules ruleset')).

Definition replace (self : t) (rules : list Rule) : t * file_content :=
  let ruleset' := RuleSet.replace (_ruleset self) rules in
  ({| _path := _path self; _ruleset := ruleset' |},
   save_rules (_path self) (RuleSet.rules ruleset')).

End RuleRepository.

(** ** runner.py *)

Module PendingRuleSession.

Record t : Type := {
  origin_chat_id : Z;
  requested_by : Z;
  target_chat_id : Z;
  step : string;
  label : option string;
  include_all : list string;
  include_any : list string;
  exclude : list string
}.

(** [PendingRuleSession(origin_chat_id=.., requested_by=.., target_chat_id=..)] *)
Definition init (origin requester target : Z) : t :=
  {| origin_chat_id := origin; requested_by := requester; target_chat_id := target;
     step := "label"; label := None;
     include_all := []; include_any := []; exclude := [] |}.

End PendingRuleSession.

(** A [datetime]: an instant and the zone it is shown in. *)
Record datetime : Type := {
  instant : Z;
  tzname : string
}.

Module MessageRecord.

Record t : Type := {
  label : string;
  chat_id : Z;
  chat_name : string;
  username : option string;
  display_name : option string;
  telegram_id : option Z;
  message_id : Z;
  message_text : string;
  message_link : option string;
  matched_keywords : list string;
  excluded_keywords : list string;
  timestamp_utc : datetime;
  timestamp_local : datetime
}.

End MessageRecord.

(** The sender of a message, as far as the handler looks at it:
    [sender.username], [get_display_name(sender)] and [sender.bot]. *)
Module Sender.
Record t : Type := {
  username : option string;
  display_name : string;
  bot : bool
}.
End Sender.

Module Message.
Record t : Type := {
  text : option string;
  out : bool;
  sender_id : option Z;
  sender : option Sender.t;
  id : Z
}.
End Message.

(** An event of [events.NewMessage], with what the handler asks of its
    surroundings while it runs: the display name of the chat and the clock. *)
Module Event.
Record t : Type := {
  message : option Message.t;
  chat_id : option Z;
  chat_name : string;
  utcnow : Z
}.
End Event.

(** The settings the handler reads. *)
Module Settings.
Record t : Type := {
  watch_chat_ids : option (gset Z);
  timezone : string;
  ignore_self_messages : bool;
  ignore_bot_messages : bool
}.
End Settings.

(** What the handler does to the outside, in order. *)
Inductive action : Type :=
| SendMessage (entity : string) (text : string)   (* [event.client.send_message] *)
| Respond (text : string)                         (* [event.respond] *)
| Append (record : MessageRecord.t).              (* [sheet_logger.append] *)

(** The objects the handler closes over, and the rules file. *)
Record State : Type := {
  pending_sessions : gmap Z PendingRuleSession.t;
  rule_repo : RuleRepository.t;
  rules_file : file_content
}.

(** [rule_set] is the very object [rule_repo.ruleset]. *)
Definition rule_set (st : State) : RuleSet.t := RuleRepository.ruleset (rule_repo st).

(** [manual_chat_filter] of [run]. *)
Definition manual_chat_filter (settings : Settings.t) : option (gset Z) :=
  if scoped (Settings.watch_chat_ids settings) then Settings.watch_chat_ids settings else None.

(** [chat_id not in filter], guarded by the truth value of the filter. *)
Definition outside (filter : option (gset Z)) (chat_id : Z) : bool :=
  match filter with
  | Some s => scoped filter && negb (bool_decide (chat_id ∈ s))
  | None => false
  end.

Fixpoint drop_chars (n : nat) (s : string) : string :=
  match n, s with
  | O, _ => s
  | S n', String _ s' => drop_chars n' s'
  | S _, EmptyString => EmptyString
  end.

Definition _build_message_link (chat_id message_id : Z) : option string :=
  if (chat_id >=? 0)%Z then None
  else
    let channel_id :=
      if String.prefix "-100" (str_of_Z chat_id) then drop_chars 4 (str_of_Z chat_id)
      else drop_chars 1 (str_of_Z chat_id) in
    Some ("https://t.me/c/" ++ channel_id ++ "/" ++ str_of_Z message_id).

Definition _matched_keywords (rule : Rule) (text : string) : list string :=
  let normalized := casefold text in
  List.filter (keyword_in normalized) (include_all rule ++ include_any rule).

(** ** The start command: [re.match(r"^!watch\s+(-?\d+)", text, re.IGNORECASE)] *)

Fixpoint take_digits (s : string) : string :=
  match s with
  | String c s' => if is_digit c then String c (take_digits s') else ""
  | EmptyString => ""
  end.

Fixpoint strip_prefix_ci (pattern s : string) : option string :=
  match pattern, s with
  | EmptyString, _ => Some s
  | String p pattern', String c s' =>
      if Ascii.eqb (lower_char c) (lower_char p) then strip_prefix_ci pattern' s' else None
  | String _ _, EmptyString => None
  end.

Definition starts_with_space (s : string) : bool :=
  match s with
  | String c _ => is_space c
  | EmptyString => false
  end.

(** Group 1 of the match, or [None] when the text does not match. *)
Definition watch_match (text : string) : option string :=
  match strip_prefix_ci "!watch" text with
  | Some rest =>
      if starts_with_space rest then
        match lstrip rest with
        | String "-" r =>
            if nonempty (take_digits r) then Some (String "-" (take_digits r)) else None
        | r => if nonempty (take_digits r) then Some (take_digits r) else None
        end
      else None
  | None => None
  end.

(** [int(match.group(1))]; the group always denotes an integer. *)
Definition watch_target (text : string) : option Z :=
  match watch_match text with
  | Some group => Some (default 0%Z (int_of_str group))
  | None => None
  end.

(** ** The handler *)

Definition redirect_notice : string :=
  "Perintah !watch hanya boleh dijalankan dari Saved Messages (chat dengan diri sendiri)."
  ++ " Kirim ulang perintah di sana.".

Definition onboarding (settings : Settings.t) (target_chat_id : Z) : string :=
  let note :=
    if outside (manual_chat_filter settings) target_chat_id then
      String "010" "Catatan: chat ini belum ada di WATCH_CHAT_IDS, "
      ++ "perbarui variabel tersebut agar pesan ikut dipantau."
    else "" in
  "Mulai konfigurasi watcher untuk chat " ++ str_of_Z target_chat_id ++ "." ++ String "010"
  ("Langkah 1 dari 4 — kirim label rule (misal: Promo Gadget)." ++ String "010"
  ("Ketik `!cancel` kapan saja untuk batal." ++ note)).

Definition prompt_include_all : string :=
  "Langkah 2 dari 4 — sebutkan keyword wajib (include_all)." ++ String "010"
  "Pisahkan dengan koma atau baris baru. Kirim '-' jika tidak ada.".

Definition prompt_include_any (include_all : list string) : string :=
  "Langkah 3 dari 4 — keyword opsional (include_any)." ++ String "010"
  "Pisahkan dengan koma atau baris baru. Kirim '-' jika tidak ada."
  ++ (if nonempty_list include_all then ""
      else String "010" "Catatan: karena belum ada include_all, "
           ++ "minimal satu keyword harus diisi di langkah ini.").

Definition prompt_exclude : string :=
  "Langkah 4 dari 4 — keyword pengecualian (exclude)." ++ String "010"
  "Pisahkan dengan koma atau kirim '-' jika tidak ada.".

Definition summary (settings : Settings.t) (target_chat_id : Z) (new_rule : Rule) : string :=
  join (String "010" "")
    (List.app
       ["Watcher baru tersimpan untuk chat " ++ str_of_Z target_chat_id ++ ":";
        "- Label: " ++ label new_rule;
        "- include_all: " ++ _fmt_keywords (include_all new_rule);
        "- include_any: " ++ _fmt_keywords (include_any new_rule);
        "- exclude: " ++ _fmt_keywords (exclude new_rule)]
       (if outside (manual_chat_filter settings) target_chat_id then
          ["- Catatan: chat ini belum ada di WATCH_CHAT_IDS, "
           ++ "perbarui env bila ingin dipantau."]
        else [])).

(** The session stored under [chat_id] after the handler assigned to its
    fields; the dictionary holds the very object that was mutated. *)
Definition store (st : State) (chat_id : Z) (session : PendingRuleSession.t) : State :=
  {| pending_sessions := <[chat_id := session]> (pending_sessions st);
     rule_repo := rule_repo st;
     rules_file := rules_file st |}.

(** [pending_sessions.pop(chat_id, None)] *)
Definition pop (st : State) (chat_id : Z) : State :=
  {| pending_sessions := delete chat_id (pending_sessions st);
     rule_repo := rule_repo st;
     rules_file := rules_file st |}.

(** The block under [if message.out and session:] (lines 271-345).  [None]
    when no branch of it returns, which leaves the handler running. *)
Definition authoring (settings : Settings.t) (st : State) (chat_id : Z)
    (session : PendingRuleSession.t) (text : string)
  : option (State * list action) :=
  let with_fields step label include_all include_any exclude :=
    {| PendingRuleSession.origin_chat_id := PendingRuleSession.origin_chat_id session;
       PendingRuleSession.requested_by := PendingRuleSession.requested_by session;
       PendingRuleSession.target_chat_id := PendingRuleSession.target_chat_id session;
       PendingRuleSession.step := step;
       PendingRuleSession.label := label;
       PendingRuleSession.include_all := include_all;
       PendingRuleSession.include_any := include_any;
       PendingRuleSession.exclude := exclude |} in
  if String.eqb (PendingRuleSession.step session) "label" then
    let label := text in
    if negb (nonempty label) then
      Some (st, [Respond "Label tidak boleh kosong. Coba kirim lagi."])
    else
      Some (store st chat_id
              (with_fields "include_all" (Some label)
                 (PendingRuleSession.include_all session)
                 (PendingRuleSession.include_any session)
                 (PendingRuleSession.exclude session)),
            [Respond prompt_include_all])
  else if String.eqb (PendingRuleSession.step session) "include_all" then
    let include_all := _parse_keywords text in
    Some (store st chat_id
            (with_fields "include_any" (PendingRuleSession.label session)
               include_all
               (PendingRuleSession.include_any session)
               (PendingRuleSession.exclude session)),
          [Respond (prompt_include_any include_all)])
  else if String.eqb (PendingRuleSession.step session) "include_any" then
    let keywords := _parse_keywords text in
    if negb (nonempty_list keywords)
       && negb (nonempty_list (PendingRuleSession.include_all session)) then
      Some (st,
            [Respond ("Minimal harus ada satu keyword. Masukkan keyword include_any "
                      ++ "dipisahkan koma.")])
    else
      Some (store st chat_id
              (with_fields "exclude" (PendingRuleSession.label session)
                 (PendingRuleSession.include_all session)
                 keywords
                 (PendingRuleSession.exclude session)),
            [Respond prompt_exclude])
  else if String.eqb (PendingRuleSession.step session) "exclude" then
    let exclude := _parse_keywords text in
    let new_rule :=
      {| label := default "" (PendingRuleSession.label session);
         include_all := PendingRuleSession.include_all session;
         include_any := PendingRuleSession.include_any session;
         exclude := exclude;
         chat_ids := Some {[PendingRuleSession.target_chat_id session]} |} in
    let '(repo', file') := RuleRepository.add_rule (rule_repo st) new_rule in
    Some ({| pending_sessions := delete chat_id (pending_sessions st);
             rule_repo := repo';
             rules_file := file' |},
          [Respond (summary settings (PendingRuleSession.target_chat_id session) new_rule)])
  else None.

(** From the chat filters to the sink (lines 347-411). *)
Definition watch (settings : Settings.t) (st : State) (event : Event.t)
    (message : Message.t) (raw_text : string) (chat_id : Z) : list action :=
  if outside (manual_chat_filter settings) chat_id then []
  else if match RuleSet.chat_ids (rule_set st) with
          | Some rule_chat_filter => negb (bool_decide (chat_id ∈ rule_chat_filter))
          | None => false
          end then []
  else if Settings.ignore_self_messages settings && Message.out message then []
  else if Settings.ignore_bot_messages settings
          && match Message.sender message with
             | Some sender => Sender.bot sender
             | None => false
             end then []
  else
    let matches := RuleSet.match_ (rule_set st) (Some chat_id) raw_text in
    let username :=
      match Message.sender message with
      | Some sender =>
          match Sender.username sender with
          | Some u => if nonempty u then Some u else None
          | None => None
          end
      | None => None
      end in
    let display_name :=
      match Message.sender message with
      | Some sender => Some (Sender.display_name sender)
      | None => None
      end in
    let timestamp_utc := {| instant := Event.utcnow event; tzname := "UTC" |} in
    let timestamp_local :=
      {| instant := Event.utcnow event; tzname := Settings.timezone settings |} in
    List.map
      (fun rule =>
         Append
           {| MessageRecord.label := label rule;
              MessageRecord.chat_id := chat_id;
              MessageRecord.chat_name := Event.chat_name event;
              MessageRecord.username := username;
              MessageRecord.display_name := display_name;
              MessageRecord.telegram_id := Message.sender_id message;
              MessageRecord.message_id := Message.id message;
              MessageRecord.message_text := raw_text;
              MessageRecord.message_link := _build_message_link chat_id (Message.id message);
              MessageRecord.matched_keywords := _matched_keywords rule raw_text;
              MessageRecord.excluded_keywords := exclude rule;
              MessageRecord.timestamp_utc := timestamp_utc;
              MessageRecord.timestamp_local := timestamp_local |})
      matches.

Definition handler (settings : Settings.t) (st : State) (event : Event.t)
  : State * list action :=
  match Event.message event with
  | None => (st, [])
  | Some message =>
  match Message.text message with
  | None => (st, [])
  | Some raw_text =>
  if negb (nonempty raw_text) then (st, [])
  else
    let chat_id := default 0%Z (Event.chat_id event) in
    let text := strip raw_text in
    let session := pending_sessions st !! chat_id in
    let is_saved_messages :=
      match Message.sender_id message with
      | Some sender_id => bool_decide (chat_id = sender_id)
      | None => false
      end in
    if Message.out message && negb is_saved_messages then
      (st, match watch_match text with
           | Some _ => [SendMessage "me" redirect_notice]
           | None => []
           end)
    else if Message.out message
            && bool_decide (is_Some session)
            && String.eqb (lower text) "!cancel" then
      (pop st chat_id, [Respond "Setup watcher dibatalkan."])
    else
      match (if Message.out message then watch_target text else None) with
      | Some target_chat_id =>
          (store st chat_id
             (PendingRuleSession.init chat_id
                (default 0%Z (Message.sender_id message)) target_chat_id),
           ((if bool_decide (is_Some session) then
               [Respond "Setup watcher sebelumnya digantikan dengan permintaan baru."]
             else [])
            ++ [Respond (onboarding settings target_chat_id)])%list)
      | None =>
          match (if Message.out message then
                   match session with
                   | Some session => authoring settings st chat_id session text
                   | None => None
                   end
                 else None) with
          | Some result => result
          | None => (st, watch settings st event message raw_text chat_id)
          end
      end
  end
  end.

(** ** config.py

    The functions of [config.py] that read the settings the handler uses.
    The process environment is a finite map from names to values. *)

Module config.

(** What a function of [config.py] does: it returns a value or raises
    [ConfigError]. *)
Inductive outcome (A : Type) : Type :=
| Return (a : A)
| ConfigError (message : string).
Arguments Return {A} a.
Arguments ConfigError {A} message.

(** [os.getenv(name)] *)
Definition getenv (env : gmap string string) (name : string) : option string :=
  env !! name.

Definition _require_env (env : gmap string string) (name : string) : outcome string :=
  match getenv env name with
  | Some value =>
      if nonempty value then Return value
      else ConfigError ("Environment variable '" ++ name ++ "' is required.")
  | None => ConfigError ("Environment variable '" ++ name ++ "' is required.")
  end.

(** [raw.split(",")] *)
Fixpoint split_commas (s : string) : list string :=
  match s with
  | EmptyString => [""]
  | String c s' =>
      if Ascii.eqb c "," then "" :: split_commas s'
      else
        match split_commas s' with
        | p :: ps => String c p :: ps
        | [] => [String c ""]
        end
  end.

Fixpoint _parse_chat_ids_loop (chat_ids0 : gset Z) (chunks : list string)
  : outcome (gset Z) :=
  match chunks with
  | [] => Return chat_ids0
  | chunk :: rest =>
      let chunk := strip chunk in
      if negb (nonempty chunk) then _parse_chat_ids_loop chat_ids0 rest
      else
        match int_of_str chunk with
        | Some z => _parse_chat_ids_loop (chat_ids0 ∪ {[z]}) rest
        | None =>
            ConfigError ("Invalid chat id '" ++ chunk ++ "' in WATCH_CHAT_IDS. Use integers.")
        end
  end.

Definition _parse_chat_ids (raw : option string) : outcome (option (gset Z)) :=
  match raw with
  | None => Return None
  | Some raw =>
      if negb (nonempty raw) then Return None
      else
        match _parse_chat_ids_loop ∅ (split_commas raw) with
        | Return s => Return (if bool_decide (s = ∅) then None else Some s)
        | ConfigError message => ConfigError message
        end
  end.


End config.

(** * Vocabulary of the properties *)

(** The four tests of the loop of [match], as one condition on a rule. *)
Definition rule_matches (chat_id : option Z) (normalized : string) (rule : Rule) : bool :=
  applies_to_chat rule chat_id
  && negb (nonempty_list (include_all rule)
           && negb (forallb (keyword_in normalized) (include_all rule)))
  && negb (nonempty_list (include_any rule)
           && negb (existsb (keyword_in normalized) (include_any rule)))
  && negb (nonempty_list (exclude rule)
           && existsb (keyword_in normalized) (exclude rule)).

(** A keyword is, case-insensitively, a substring of a text. *)
Definition occurs_in (keyword text : string) : Prop :=
  exists pre post, casefold text = pre ++ casefold keyword ++ post.

(** The keyword conditions of a rule on a text, in the words of the
    specification: every [include_all] keyword occurs, some [include_any]
    keyword occurs unless there is none, and no [exclude] keyword occurs. *)
Definition keyword_conditions (r : Rule) (text : string) : Prop :=
  (forall k, k ∈ include_all r -> occurs_in k text)
  /\ (include_any r = [] \/ exists k, k ∈ include_any r /\ occurs_in k text)
  /\ (forall k, k ∈ exclude r -> ~ occurs_in k text).

Fixpoint all_chars (P : ascii -> bool) (s : string) : bool :=
  match s with
  | EmptyString => true
  | String c s' => P c && all_chars P s'
  end.

Definition no_sep (s : string) : bool := all_chars (fun c => negb (is_sep c)) s.

(** What [re.split(r"[,\n;]+", s)] returns, as a relation: [s] is cut into
    pieces free of separators by non-empty runs of separators, each run
    maximal (the text after it does not start with a separator). *)
Inductive splits_on_runs : string -> list string -> Prop :=
| split_last (p : string) :
    no_sep p = true -> splits_on_runs p [p]
| split_run (p run rest : string) (ps : list string) :
    no_sep p = true ->
    run ≠ "" -> all_chars is_sep run = true ->
    starts_with_sep rest = false ->
    splits_on_runs rest ps ->
    splits_on_runs (p ++ run ++ rest) (p :: ps).

Definition newline : string := String "010" "".

(** The chats a rule is scoped to, as the cache counts them. *)
Definition scope_of (r : Rule) : gset Z :=
  match chat_ids r with
  | Some s => s
  | None => ∅
  end.

(** The invariant of [RuleSet]: the cache is what [_rebuild_chat_cache]
    would compute from the rules. *)
Definition cache_consistent (self : RuleSet.t) : Prop :=
  RuleSet._chat_ids self = RuleSet._rebuild_chat_cache (RuleSet._rules self).

(** [event] carries a message with text [raw], sent by the owner in the
    owner's self-conversation, whose chat id is [c]. *)
Definition own_message (c : Z) (raw : string) (event : Event.t) : Prop :=
  exists message,
    Event.message event = Some message
    /\ Message.text message = Some raw
    /\ Message.out message = true
    /\ default 0%Z (Event.chat_id event) = c
    /\ Message.sender_id message = Some c.

(** The handler run on a sequence of events, one after the other. *)
Fixpoint run_handler (settings : Settings.t) (st : State) (events : list Event.t)
  : State * list action :=
  match events with
  | [] => (st, [])
  | event :: rest =>
      let r := handler settings st event in
      let r' := run_handler settings (fst r) rest in
      (fst r', (snd r ++ snd r')%list)
  end.

(** The records handed to the sink among the actions of the handler. *)
Fixpoint appended (acts : list action) : list MessageRecord.t :=
  match acts with
  | [] => []
  | Append record :: rest => record :: appended rest
  | _ :: rest => appended rest
  end.

(** The invariant of the data model: a non-empty label and at least one
    keyword in [include_all] or [include_any]. *)
Definition rule_wf (r : Rule) : Prop :=
  label r ≠ "" /\ (include_all r ≠ [] \/ include_any r ≠ []).

(** The label [load_rules] reads from an entry of the file, and the two
    keyword lists it needs one keyword from. *)
Definition entry_label (d : list (string * json)) : string :=
  strip (py_str (py_or (py_or (dict_get d "label") (dict_get d "name")) (JStr ""))).

Definition entry_include_all (d : list (string * json)) : result (list string) :=
  _ensure_list (py_or (dict_get d "include_all") (dict_get d "include"))
               "include_all" (entry_label d).

Definition entry_include_any (d : list (string * json)) : result (list string) :=
  _ensure_list (dict_get d "include_any") "include_any" (entry_label d).

(** An entry that has no label, or no keyword in either list. *)
Definition lacks_required (raw : json) : Prop :=
  match raw with
  | JDict d =>
      entry_label d = ""
      \/ (entry_include_all d = Ok [] /\ entry_include_any d = Ok [])
  | _ => False
  end.

Definition label_set (s : PendingRuleSession.t) : Prop :=
  exists l, PendingRuleSession.label s = Some l /\ l ≠ "".

(** What a pending session holds at each step of the dialogue. *)
Definition session_wf (s : PendingRuleSession.t) : Prop :=
  PendingRuleSession.step s = "label"
  \/ ((PendingRuleSession.step s = "include_all"
       \/ PendingRuleSession.step s = "include_any") /\ label_set s)
  \/ (PendingRuleSession.step s = "exclude" /\ label_set s
      /\ (PendingRuleSession.include_all s ≠ []
          \/ PendingRuleSession.include_any s ≠ [])).

Definition state_inv (st : State) : Prop :=
  cache_consistent (rule_set st)
  /\ (forall r, r ∈ RuleSet.rules (rule_set st) -> rule_wf r)
  /\ (forall c s, pending_sessions st !! c = Some s -> session_wf s).

(** The states the bot goes through: [run] loads the repository from the
    rules file and starts with no session; then the handler runs on one
    event after the other. *)
Inductive reachable (settings : Settings.t) (path : string) : State -> Prop :=
| reachable_start (file : file_content) (repo : RuleRepository.t) :
    RuleRepository.init path file = Ok repo ->
    reachable settings path
      {| pending_sessions := ∅; rule_repo := repo; rules_file := file |}
| reachable_step (st : State) (event : Event.t) :
    reachable settings path st ->
    reachable settings path (fst (handler settings st event)).

(** A rule as the rules file can hold it: well formed, with a label that
    [strip] leaves as it is and a chat scope that is absent or not empty. *)
Definition storable (r : Rule) : Prop :=
  rule_wf r /\ strip (label r) = label r /\ chat_ids r ≠ Some ∅.




(** A pending session stored under the key [c]: well formed for its step,
    begun in chat [c] by the user [c], with a label that [strip] leaves as
    it is. *)
Definition session_ok (c : Z) (s : PendingRuleSession.t) : Prop :=
  session_wf s
  /\ PendingRuleSession.origin_chat_id s = c
  /\ PendingRuleSession.requested_by s = c
  /\ (forall l, PendingRuleSession.label s = Some l -> strip l = l).

(** The rule set in memory and the rules file agree, and every rule and
    every session is as the handler builds them. *)
Definition bot_inv (path : string) (st : State) : Prop :=
  cache_consistent (rule_set st)
  /\ Forall storable (RuleSet.rules (rule_set st))
  /\ RuleRepository.path (rule_repo st) = path
  /\ load_rules path (rules_file st) = Ok (rule_set st)
  /\ (forall c s, pending_sessions st !! c = Some s -> session_ok c s).



(** A keyword as [_parse_keywords] returns them: not empty, without white
    space at either end, and without comma, semicolon or newline. *)
Definition clean_keyword (k : string) : Prop :=
  k ≠ "" /\ lstrip k = k /\ rstrip k = k /\ no_sep k = true.

(** * Sample data *)

(** A rule for every chat, with an exclusion. *)
Definition promo_rule : Rule :=
  {| label := "Promo"; include_all := ["buy"]; include_any := [];
     exclude := ["spam"]; chat_ids := None |}.

(** A rule scoped to chat 5. *)
Definition scoped_rule : Rule :=
  {| label := "Urgent"; include_all := []; include_any := ["urgent"; "asap"];
     exclude := []; chat_ids := Some {[5%Z]} |}.

(** A concrete setting for the examples: the owner has id 7, so that chat 7
    is the self-conversation. *)
Definition sample_settings : Settings.t :=
  {| Settings.watch_chat_ids := None;
     Settings.timezone := "Asia/Jakarta";
     Settings.ignore_self_messages := false;
     Settings.ignore_bot_messages := true |}.

(** The owner sends [text] in the self-conversation. *)
Definition owner_says (text : string) : Event.t :=
  {| Event.message :=
       Some {| Message.text := Some text;
               Message.out := true;
               Message.sender_id := Some 7%Z;
               Message.sender := None;
               Message.id := 1%Z |};
     Event.chat_id := Some 7%Z;
     Event.chat_name := "Saved Messages";
     Event.utcnow := 0%Z |}.

(** A repository holding [rules], as [RuleRepository] builds it. *)
Definition sample_repo (rules : list Rule) : RuleRepository.t :=
  {| RuleRepository._path := "watch_rules.json";
     RuleRepository._ruleset := RuleSet.init rules |}.

(** A session waiting for the [include_any] keywords. *)
Definition halfway_session : PendingRuleSession.t :=
  {| PendingRuleSession.origin_chat_id := 7%Z;
     PendingRuleSession.requested_by := 7%Z;
     PendingRuleSession.target_chat_id := (-1001234)%Z;
     PendingRuleSession.step := "include_any";
     PendingRuleSession.label := Some "Promo";
     PendingRuleSession.include_all := ["buy now"];
     PendingRuleSession.include_any := [];
     PendingRuleSession.exclude := [] |}.

(** One rule and one pending session in the self-conversation. *)
Definition halfway_state : State :=
  {| pending_sessions := {[7%Z := halfway_session]};
     rule_repo := sample_repo [promo_rule];
     rules_file := save_rules "watch_rules.json" [promo_rule] |}.

(** A rule for every chat. *)
Definition anywhere_rule : Rule :=
  {| label := "Sale"; include_all := []; include_any := ["sale"];
     exclude := []; chat_ids := None |}.

(** An unscoped rule next to a rule scoped to chat 5. *)
Definition mixed_state : State :=
  {| pending_sessions := ∅;
     rule_repo := sample_repo [anywhere_rule; scoped_rule];
     rules_file := save_rules "watch_rules.json" [anywhere_rule; scoped_rule] |}.

(** Somebody else sends [text] in a chat. *)
Definition someone_says (chat : Z) (text : string) : Event.t :=
  {| Event.message :=
       Some {| Message.text := Some text;
               Message.out := false;
               Message.sender_id := Some 99%Z;
               Message.sender := None;
               Message.id := 12%Z |};
     Event.chat_id := Some chat;
     Event.chat_name := "Market";
     Event.utcnow := 0%Z |}.

(** The owner sends [text] in another chat. *)
Definition owner_says_in (chat : Z) (text : string) : Event.t :=
  {| Event.message :=
       Some {| Message.text := Some text;
               Message.out := true;
               Message.sender_id := Some 7%Z;
               Message.sender := None;
               Message.id := 3%Z |};
     Event.chat_id := Some chat;
     Event.chat_name := "Market";
     Event.utcnow := 0%Z |}.

(** One unscoped rule, no session. *)
Definition unscoped_state : State :=
  {| pending_sessions := ∅;
     rule_repo := sample_repo [anywhere_rule];
     rules_file := save_rules "watch_rules.json" [anywhere_rule] |}.

(** The state [run] starts in when there is no rules file. *)
Definition fresh_state : State :=
  {| pending_sessions := ∅;
     rule_repo := sample_repo [];
     rules_file := Missing |}.

(** The state after the owner has begun a rule for chat 42. *)
Definition started_state : State :=
  fst (handler sample_settings fresh_state (owner_says "!watch 42")).

(** The state after the owner has authored a rule for chat 42. *)
Definition authored_state : State :=
  fst (run_handler sample_settings fresh_state
         [owner_says "!watch 42"; owner_says "Promo"; owner_says "buy now";
          owner_says "-"; owner_says "spam, scam"]).

(** The record of the message [  Big SALE today], sent by user 99 in chat
    6, for the rule [Sale]. *)
Definition sale_record : MessageRecord.t :=
  {| MessageRecord.label := "Sale";
     MessageRecord.chat_id := 6%Z;
     MessageRecord.chat_name := "Market";
     MessageRecord.username := None;
     MessageRecord.display_name := None;
     MessageRecord.telegram_id := Some 99%Z;
     MessageRecord.message_id := 12%Z;
     MessageRecord.message_text := "  Big SALE today";
     MessageRecord.message_link := None;
     MessageRecord.matched_keywords := ["sale"];
     MessageRecord.excluded_keywords := [];
     MessageRecord.timestamp_utc := {| instant := 0%Z; tzname := "UTC" |};
     MessageRecord.timestamp_local := {| instant := 0%Z; tzname := "Asia/Jakarta" |} |}.

(** * Properties *)

(** ** Text *)

(** [String.append] does not unfold under [simpl] once stdpp is loaded. *)
Lemma append_String (c : ascii) (a b : string) : String c a ++ b = String c (a ++ b).
Proof. reflexivity. Qed.

Lemma append_Empty (b : string) : "" ++ b = b.
Proof. reflexivity. Qed.

Ltac unfold_append := rewrite ?append_String, ?append_Empty in *.

Lemma prefix_app (a b : string) :
  String.prefix a b = true <-> exists post, b = a ++ post.
Proof.
  revert b; induction a as [|c a IH]; intros b; simpl.
  - destruct b; split; eauto.
  - destruct b as [|d b]; simpl.
    + split; [discriminate | intros [post H]; discriminate].
    + destruct (ascii_dec c d) as [->|Hne].
      * rewrite IH. split; intros [post H]; exists post; unfold_append; congruence.
      * split; [discriminate | intros [post H]; unfold_append; congruence].
Qed.

(** [contains] decides the substring relation. *)
Lemma contains_substring (needle hay : string) :
  contains needle hay = true <-> exists pre post, hay = pre ++ needle ++ post.
Proof.
  assert (Hunfold : forall h, contains needle h
            = String.prefix needle h
              || match h with EmptyString => false | String _ h' => contains needle h' end)
    by (intros []; reflexivity).
  induction hay as [|c hay IH]; rewrite Hunfold, orb_true_iff, prefix_app.
  - split.
    + intros [[post H]|H]; [exists "", post; exact H | discriminate].
    + intros (pre & post & H). left.
      destruct pre; unfold_append; [by exists post | discriminate].
  - rewrite IH. split.
    + intros [[post H]|(pre & post & H)].
      * exists "", post; exact H.
      * exists (String c pre), post. unfold_append. by rewrite H.
    + intros (pre & post & H). destruct pre as [|d pre]; unfold_append.
      * left; by exists post.
      * right. inversion H; subst. by exists pre, post.
Qed.

(** ** The rule engine *)

Lemma match_loop_filter (chat_id : option Z) (normalized : string) (rules : list Rule) :
  RuleSet.match_loop chat_id normalized rules
  = List.filter (rule_matches chat_id normalized) rules.
Proof.
  induction rules as [|rule rest IH]; simpl; [reflexivity|].
  unfold rule_matches.
  destruct (applies_to_chat rule chat_id); simpl; [|exact IH].
  destruct (nonempty_list (include_all rule)
            && negb (forallb (keyword_in normalized) (include_all rule))); simpl; [exact IH|].
  destruct (nonempty_list (include_any rule)
            && negb (existsb (keyword_in normalized) (include_any rule))); simpl; [exact IH|].
  destruct (nonempty_list (exclude rule)
            && existsb (keyword_in normalized) (exclude rule)); simpl; [exact IH|].
  by rewrite IH.
Qed.

Lemma elem_of_match (self : RuleSet.t) (chat_id : option Z) (text : string) (r : Rule) :
  r ∈ RuleSet.match_ self chat_id text
  <-> r ∈ RuleSet.rules self /\ rule_matches chat_id (casefold text) r = true.
Proof.
  unfold RuleSet.match_, RuleSet.rules.
  rewrite match_loop_filter, !list_elem_of_In. apply filter_In.
Qed.

Lemma keyword_in_occurs (keyword text : string) :
  keyword_in (casefold text) keyword = true <-> occurs_in keyword text.
Proof. apply contains_substring. Qed.

Lemma existsb_keyword (text : string) (keywords : list string) :
  existsb (keyword_in (casefold text)) keywords = true
  <-> exists k, k ∈ keywords /\ occurs_in k text.
Proof.
  rewrite existsb_exists. split; intros (k & Hk & H); exists k.
  - by rewrite list_elem_of_In, <- keyword_in_occurs.
  - by rewrite <- list_elem_of_In, keyword_in_occurs.
Qed.

Lemma forallb_keyword (text : string) (keywords : list string) :
  forallb (keyword_in (casefold text)) keywords = true
  <-> forall k, k ∈ keywords -> occurs_in k text.
Proof.
  rewrite forallb_forall. split; intros H k Hk.
  - apply keyword_in_occurs, H. by apply list_elem_of_In.
  - apply keyword_in_occurs, H. by apply list_elem_of_In.
Qed.

Lemma rule_matches_conditions (chat_id : option Z) (text : string) (r : Rule) :
  rule_matches chat_id (casefold text) r = true
  <-> applies_to_chat r chat_id = true /\ keyword_conditions r text.
Proof.
  unfold rule_matches, keyword_conditions.
  rewrite !andb_true_iff, !negb_true_iff, !andb_false_iff, !negb_false_iff.
  rewrite forallb_keyword.
  assert (Hany : nonempty_list (include_any r) = false
                 \/ existsb (keyword_in (casefold text)) (include_any r) = true
                 <-> include_any r = [] \/ exists k, k ∈ include_any r /\ occurs_in k text).
  { rewrite existsb_keyword. destruct (include_any r); simpl; intuition congruence. }
  assert (Hex : nonempty_list (exclude r) = false
                \/ existsb (keyword_in (casefold text)) (exclude r) = false
                <-> forall k, k ∈ exclude r -> ~ occurs_in k text).
  { split.
    - intros [H|H] k Hk Hocc.
      + destruct (exclude r); [by apply not_elem_of_nil in Hk | discriminate].
      + assert (existsb (keyword_in (casefold text)) (exclude r) = true)
          by (apply existsb_keyword; eauto).
        congruence.
    - intros H. right. apply not_true_is_false. intros Htrue.
      apply existsb_keyword in Htrue as (k & Hk & Hocc). by apply (H k). }
  rewrite Hany, Hex.
  split.
  - intros [[[Ha Hall] Hany'] Hex']. repeat split; try done.
    destruct Hall as [Hall|Hall]; [|done].
    intros k Hk. destruct (include_all r); [by apply not_elem_of_nil in Hk | discriminate].
  - intros (Ha & Hall & Hany' & Hex'). repeat split; auto.
Qed.





(** ** Stripping *)

Lemma lstrip_idem (s : string) : lstrip (lstrip s) = lstrip s.
Proof.
  induction s as [|c s IH]; simpl; [reflexivity|].
  destruct (is_space c) eqn:Hc; [exact IH | simpl; by rewrite Hc].
Qed.

Lemma rstrip_idem (s : string) : rstrip (rstrip s) = rstrip s.
Proof.
  induction s as [|c s IH]; simpl; [reflexivity|].
  destruct (rstrip s) as [|d r] eqn:Hr.
  - destruct (is_space c) eqn:Hc; simpl; [reflexivity | by rewrite Hc].
  - change (rstrip (String c (String d r))) with
      (match rstrip (String d r) with
       | EmptyString => if is_space c then EmptyString else String c EmptyString
       | String d' r' => String c (String d' r')
       end).
    by rewrite IH.
Qed.

Lemma rstrip_lstrip_fixed (s : string) : rstrip s = s -> rstrip (lstrip s) = lstrip s.
Proof.
  induction s as [|c s IH]; simpl; [done|].
  destruct (is_space c) eqn:Hc.
  - destruct (rstrip s) as [|d r] eqn:Hr; [discriminate|].
    intros H. apply IH. congruence.
  - intros H. simpl. rewrite Hc. exact H.
Qed.

Lemma strip_idem (s : string) : strip (strip s) = strip s.
Proof.
  unfold strip.
  rewrite (rstrip_lstrip_fixed (rstrip s)) by apply rstrip_idem.
  apply lstrip_idem.
Qed.

(** ** Splitting on runs of separators *)

Lemma re_split_splits (s : string) : splits_on_runs s (re_split s).
Proof.
  induction s as [|c s IH]; simpl.
  - by apply split_last.
  - destruct (is_sep c) eqn:Hc.
    + destruct (starts_with_sep s) eqn:Hs.
      * inversion IH as [p Hp Heq1 Heq2 | p run rest ps Hp Hne Hrun Hrest Hsplit Heq1 Heq2].
        -- subst p. destruct s as [|d s]; [discriminate|].
           unfold no_sep in Hp. simpl in Hs, Hp. rewrite Hs in Hp. discriminate.
        -- destruct p as [|d p].
           ++ apply (split_run "" (String c run) rest ps); try done.
              simpl. by rewrite Hc.
           ++ subst s. unfold_append. unfold no_sep in Hp. simpl in Hs, Hp.
              rewrite Hs in Hp. discriminate.
      * apply (split_run "" (String c "") s (re_split s)); try done.
        simpl. by rewrite Hc.
    + inversion IH as [p Hp Heq1 Heq2 | p run rest ps Hp Hne Hrun Hrest Hsplit Heq1 Heq2].
      * apply split_last. unfold no_sep in *. simpl. by rewrite Hc.
      * apply (split_run (String c p) run rest ps); try done.
        unfold no_sep in *. simpl. by rewrite Hc.
Qed.

Lemma append_empty_r (s : string) : s ++ "" = s.
Proof. induction s as [|c s IH]; unfold_append; [reflexivity | by rewrite IH]. Qed.

Lemma re_split_cons (s : string) : exists q qs, re_split s = q :: qs.
Proof.
  induction s as [|c s (q & qs & IH)]; simpl; [by eauto|].
  rewrite IH. destruct (is_sep c), (starts_with_sep s); eauto.
Qed.

Lemma re_split_no_sep (p s q : string) (qs : list string) :
  no_sep p = true -> re_split s = q :: qs -> re_split (p ++ s) = (p ++ q) :: qs.
Proof.
  unfold no_sep. intros Hp Hs.
  induction p as [|c p IH]; simpl in Hp; unfold_append; [done|].
  apply andb_true_iff in Hp as [Hc Hp]. apply negb_true_iff in Hc.
  simpl. by rewrite Hc, (IH Hp).
Qed.

Lemma re_split_run (run rest : string) :
  run ≠ "" -> all_chars is_sep run = true -> starts_with_sep rest = false ->
  re_split (run ++ rest) = "" :: re_split rest.
Proof.
  induction run as [|c run IH]; [done|]. intros _ Hrun Hrest.
  simpl in Hrun. apply andb_true_iff in Hrun as [Hc Hrun].
  unfold_append. simpl. rewrite Hc.
  destruct run as [|d run].
  - unfold_append. by rewrite Hrest.
  - simpl in Hrun. apply andb_true_iff in Hrun as [Hd Hrun'].
    unfold_append. simpl starts_with_sep. rewrite Hd.
    rewrite <- append_String. apply IH; [done | simpl; by rewrite Hd, Hrun' | done].
Qed.

(** [re_split] is the only way to cut a text on its runs of separators. *)
Lemma splits_on_runs_unique (s : string) (pieces : list string) :
  splits_on_runs s pieces -> pieces = re_split s.
Proof.
  induction 1 as [p Hp | p run rest ps Hp Hne Hrun Hrest Hsplit IH].
  - rewrite <- (append_empty_r p) at 2.
    by rewrite (re_split_no_sep p "" "" []), append_empty_r.
  - rewrite (re_split_no_sep p (run ++ rest) "" ps), append_empty_r; [done..|].
    rewrite re_split_run by done. by rewrite IH.
Qed.

(** C7. Keyword-list parsing: the parser trims its input; it returns the
    empty list when the trimmed input is empty or is, whatever the case of
    its letters, [-], [skip] or [none]; otherwise it cuts the trimmed input
    on its runs of commas, semicolons and newlines, trims every piece and
    drops the empty ones, keeping order and duplicates.  The input
    [a, b;c] followed by a newline and [d] gives [a; b; c; d], and [-] gives
    the empty list. *)
Theorem parse_keywords_spec (raw : string) (pieces : list string) :
  _parse_keywords raw = _parse_keywords (strip raw)
  /\ (strip raw = "" \/ lower (strip raw) ∈ ["-"; "skip"; "none"] ->
      _parse_keywords raw = [])
  /\ (strip raw ≠ "" -> lower (strip raw) ∉ ["-"; "skip"; "none"] ->
      splits_on_runs (strip raw) pieces ->
      _parse_keywords raw = List.filter nonempty (List.map strip pieces))
  /\ _parse_keywords ("a, b;c" ++ newline ++ "d") = ["a"; "b"; "c"; "d"]
  /\ _parse_keywords "-" = [].
Proof.
  assert (Hskip : forall s, is_skip_word s = true <-> s ∈ ["-"; "skip"; "none"]).
  { intros s. unfold is_skip_word. rewrite !orb_true_iff, !String.eqb_eq.
    rewrite !elem_of_cons, elem_of_nil. tauto. }
  repeat split.
  - unfold _parse_keywords. by rewrite strip_idem.
  - unfold _parse_keywords. intros [H|H].
    + by rewrite H.
    + apply Hskip in H. rewrite H. by destruct (negb (nonempty (strip raw))).
  - unfold _parse_keywords. intros Hne Hns Hsplit.
    destruct (strip raw) as [|c s] eqn:Hs; [done|].
    change (negb (nonempty (String c s))) with false. cbv iota.
    destruct (is_skip_word (lower (String c s))) eqn:Hw.
    + by apply Hskip in Hw.
    + by rewrite (splits_on_runs_unique _ _ Hsplit).
Qed.

Lemma parse_keywords_spec_witness :
  _parse_keywords "  Buy now,, sale ;buy now;  " = ["Buy now"; "sale"; "buy now"].
Proof.
  destruct (parse_keywords_spec "  Buy now,, sale ;buy now;  "
              (re_split (strip "  Buy now,, sale ;buy now;  ")))
    as (_ & _ & H & _).
  rewrite H.
  - vm_compute. reflexivity.
  - vm_compute. discriminate.
  - intros Hin. apply list_elem_of_In in Hin. vm_compute in Hin.
    intuition discriminate.
  - apply re_split_splits.
Defined.

(** ** The chat-scope cache *)

Lemma update_scope (acc : gset Z) (r : Rule) :
  match chat_ids r with
  | Some s => if scoped (Some s) then acc ∪ s else acc
  | None => acc
  end = acc ∪ scope_of r.
Proof.
  unfold scope_of, scoped. destruct (chat_ids r) as [s|]; [|set_solver].
  case_bool_decide; simpl; set_solver.
Qed.

Lemma _rebuild_chat_cache_loop_union (acc : gset Z) (rules : list Rule) :
  RuleSet._rebuild_chat_cache_loop acc rules
  = acc ∪ ⋃ (scope_of <$> rules).
Proof.
  revert acc; induction rules as [|r rules IH]; intros acc; simpl.
  - set_solver.
  - rewrite update_scope, IH. set_solver.
Qed.

Lemma _rebuild_chat_cache_union (rules : list Rule) :
  RuleSet._rebuild_chat_cache rules = ⋃ (scope_of <$> rules).
Proof. unfold RuleSet._rebuild_chat_cache. rewrite _rebuild_chat_cache_loop_union. set_solver. Qed.

Lemma elem_of_chat_cache (rules : list Rule) (c : Z) :
  c ∈ RuleSet._rebuild_chat_cache rules
  <-> exists r s, r ∈ rules /\ chat_ids r = Some s /\ c ∈ s.
Proof.
  rewrite _rebuild_chat_cache_union, elem_of_union_list. split.
  - intros (X & HX & Hc). apply list_elem_of_fmap in HX as (r & -> & Hr).
    unfold scope_of in Hc. destruct (chat_ids r) as [s|] eqn:Hs; [|set_solver].
    by exists r, s.
  - intros (r & s & Hr & Hs & Hc). exists (scope_of r). split.
    + apply list_elem_of_fmap. by exists r.
    + unfold scope_of. by rewrite Hs.
Qed.

Lemma init_cache_consistent (rules : list Rule) : cache_consistent (RuleSet.init rules).
Proof. reflexivity. Qed.

Lemma add_rule_cache_consistent (self : RuleSet.t) (rule : Rule) :
  cache_consistent self -> cache_consistent (RuleSet.add_rule self rule).
Proof.
  unfold cache_consistent, RuleSet.add_rule. simpl. intros ->.
  rewrite update_scope, !_rebuild_chat_cache_union, fmap_app, union_list_app_L. simpl.
  set_solver.
Qed.

(** ** The handler on the owner's messages in the self-conversation *)

Lemma strip_nonempty (s : string) : nonempty (strip s) = true -> nonempty s = true.
Proof. by destruct s. Qed.

Lemma watch_match_not_cancel (text group : string) :
  watch_match text = Some group -> String.eqb (lower text) "!cancel" = false.
Proof.
  unfold watch_match.
  destruct text as [|c1 [|c2 text]]; simpl.
  - discriminate.
  - destruct (Ascii.eqb (lower_char c1) (lower_char "!")); discriminate.
  - destruct (Ascii.eqb (lower_char c1) (lower_char "!")); [|discriminate].
    destruct (Ascii.eqb (lower_char c2) (lower_char "w")) eqn:Hw; [|discriminate].
    intros _. apply Ascii.eqb_eq in Hw. rewrite Hw.
    destruct (Ascii.eqb (lower_char c1) "!"); reflexivity.
Qed.

Lemma watch_target_match (text : string) (t : Z) :
  watch_target text = Some t -> exists group, watch_match text = Some group.
Proof. unfold watch_target. destruct (watch_match text); [eauto | discriminate]. Qed.

Lemma watch_target_nonempty (raw : string) (t : Z) :
  watch_target (strip raw) = Some t -> nonempty raw = true.
Proof.
  intros H. apply strip_nonempty.
  apply watch_target_match in H as [group H]. by destruct (strip raw).
Qed.

Ltac open_handler H :=
  let message := fresh "message" in
  destruct H as (message & Hmessage & Htext & Hout & Hchat & Hsender);
  unfold handler;
  rewrite Hmessage, Htext, Hout, Hchat, Hsender;
  rewrite (bool_decide_eq_true_2 _ eq_refl);
  cbv zeta; simpl negb; simpl andb.

(** Step 3 of the router: a cancel command while a session is pending. *)
Lemma handler_cancel (settings : Settings.t) (st : State) (event : Event.t)
    (c : Z) (raw : string) :
  own_message c raw event ->
  is_Some (pending_sessions st !! c) ->
  lower (strip raw) = "!cancel" ->
  handler settings st event = (pop st c, [Respond "Setup watcher dibatalkan."]).
Proof.
  intros Hown Hsession Hcancel.
  assert (Hraw : nonempty raw = true)
    by (apply strip_nonempty; destruct (strip raw); [discriminate | done]).
  open_handler Hown. rewrite Hraw, Hcancel. simpl.
  by rewrite (bool_decide_eq_true_2 _ Hsession).
Qed.

(** Step 4 of the router: a start command. *)
Lemma handler_start (settings : Settings.t) (st : State) (event : Event.t)
    (c : Z) (raw : string) (t : Z) :
  own_message c raw event ->
  watch_target (strip raw) = Some t ->
  handler settings st event
  = (store st c (PendingRuleSession.init c c t),
     ((if bool_decide (is_Some (pending_sessions st !! c)) then
         [Respond "Setup watcher sebelumnya digantikan dengan permintaan baru."]
       else [])
      ++ [Respond (onboarding settings t)])%list).
Proof.
  intros Hown Htarget.
  pose proof (watch_target_nonempty _ _ Htarget) as Hraw.
  destruct (watch_target_match _ _ Htarget) as [group Hgroup].
  apply watch_match_not_cancel in Hgroup.
  open_handler Hown. rewrite Hraw, Hgroup, Htarget. simpl.
  by rewrite ?andb_false_r.
Qed.


Lemma run_handler_cons (settings : Settings.t) (st : State) (event : Event.t)
    (rest : list Event.t) :
  run_handler settings st (event :: rest)
  = (fst (run_handler settings (fst (handler settings st event)) rest),
     (snd (handler settings st event)
      ++ snd (run_handler settings (fst (handler settings st event)) rest))%list).
Proof. reflexivity. Qed.

(** C8. Cancellation atomicity: whatever step a pending session is at, a
    cancel command sent by the owner in the origin chat removes the session,
    answers with the acknowledgement and persists nothing: the rule set in
    memory and the rules file are unchanged, and so are the sessions of
    other chats.  A start command sent next in the same chat creates a
    session with the fields of a new one (step [label], no label, empty
    keyword lists), without the notice of a replaced session. *)
Theorem cancellation_atomic
    (settings : Settings.t) (st : State) (event event' : Event.t)
    (c : Z) (raw raw' : string) (session : PendingRuleSession.t) (t : Z) :
  own_message c raw event ->
  pending_sessions st !! c = Some session ->
  lower (strip raw) = "!cancel" ->
  own_message c raw' event' ->
  watch_target (strip raw') = Some t ->
  let st1 := fst (handler settings st event) in
  let st2 := fst (handler settings st1 event') in
  snd (handler settings st event) = [Respond "Setup watcher dibatalkan."]
  /\ pending_sessions st1 !! c = None
  /\ (forall c' : Z, c' ≠ c -> pending_sessions st1 !! c' = pending_sessions st !! c')
  /\ rule_repo st1 = rule_repo st
  /\ rules_file st1 = rules_file st
  /\ snd (handler settings st1 event') = [Respond (onboarding settings t)]
  /\ pending_sessions st2 !! c
     = Some {| PendingRuleSession.origin_chat_id := c;
               PendingRuleSession.requested_by := c;
               PendingRuleSession.target_chat_id := t;
               PendingRuleSession.step := "label";
               PendingRuleSession.label := None;
               PendingRuleSession.include_all := [];
               PendingRuleSession.include_any := [];
               PendingRuleSession.exclude := [] |}
  /\ rule_repo st2 = rule_repo st
  /\ rules_file st2 = rules_file st.
Proof.
  intros Hown Hsession Hcancel Hown' Htarget st1 st2.
  assert (Hst1 : st1 = pop st c).
  { unfold st1. by rewrite (handler_cancel settings st event c raw). }
  assert (Hgone : pending_sessions (pop st c) !! c = None) by apply lookup_delete_eq.
  assert (Hst2 : handler settings (pop st c) event'
                 = (store (pop st c) c (PendingRuleSession.init c c t),
                    [Respond (onboarding settings t)])).
  { rewrite (handler_start settings (pop st c) event' c raw' t) by done.
    rewrite Hgone. rewrite bool_decide_eq_false_2; [done | by intros [? ?]]. }
  unfold st2. rewrite Hst1, Hst2.
  rewrite (handler_cancel settings st event c raw) by done.
  repeat split; try done.
  - intros c' Hc'. by apply lookup_delete_ne.
  - apply lookup_insert_eq.
Qed.

Lemma owner_says_own (text : string) : own_message 7%Z text (owner_says text).
Proof. eexists. repeat split; reflexivity. Qed.

Lemma cancellation_atomic_witness :
  pending_sessions (fst (handler sample_settings halfway_state (owner_says " !Cancel")))
    !! 7%Z = None
  /\ rule_repo (fst (handler sample_settings halfway_state (owner_says " !Cancel")))
     = sample_repo [promo_rule].
Proof.
  destruct (cancellation_atomic sample_settings halfway_state
              (owner_says " !Cancel") (owner_says "!watch 42")
              7%Z " !Cancel" "!watch 42" halfway_session 42%Z)
    as (_ & Hgone & _ & Hrepo & _).
  - apply owner_says_own.
  - apply lookup_singleton_eq.
  - reflexivity.
  - apply owner_says_own.
  - reflexivity.
  - split; [exact Hgone | exact Hrepo].
Defined.



(** ** What a run of the handler can do *)

Lemma authoring_appended (settings : Settings.t) (st st' : State) (c : Z)
    (session : PendingRuleSession.t) (text : string) (acts : list action) :
  authoring settings st c session text = Some (st', acts) -> appended acts = [].
Proof.
  unfold authoring. intros H.
  repeat case_match; simplify_eq; reflexivity.
Qed.

(** Every run of the handler ends in one of two ways: at the commands and
    the authoring dialogue, which hand nothing to the sink, or at [watch],
    which leaves the state as it is. *)
Lemma handler_cases (settings : Settings.t) (st st' : State) (event : Event.t)
    (acts : list action) :
  handler settings st event = (st', acts) ->
  let c := default 0%Z (Event.chat_id event) in
  (appended acts = []
   /\ (st' = st
       \/ st' = pop st c
       \/ (exists r t, st' = store st c (PendingRuleSession.init c r t))
       \/ (exists session text acts',
             pending_sessions st !! c = Some session
             /\ authoring settings st c session text = Some (st', acts'))))
  \/ (exists message raw,
        Event.message event = Some message
        /\ Message.text message = Some raw
        /\ (Message.out message = true -> Message.sender_id message = Some c)
        /\ st' = st
        /\ acts = watch settings st event message raw c).
Proof.
  intros H. unfold handler in H. cbv zeta in H |- *.
  set (c := default 0%Z (Event.chat_id event)) in *.
  destruct (Event.message event) as [message|]; [|simplify_eq; left; eauto].
  destruct (Message.text message) as [raw|] eqn:Htext; [|simplify_eq; left; eauto].
  destruct (nonempty raw); simpl in H; [|simplify_eq; left; eauto].
  destruct (Message.out message) eqn:Hout; simpl in H.
  - destruct (Message.sender_id message) as [sender|] eqn:Hsender.
    + case_bool_decide as Hsaved; simpl in H.
      * subst sender.
        destruct (bool_decide (is_Some (pending_sessions st !! c))
                  && String.eqb (lower (strip raw)) "!cancel").
        { simplify_eq. left. eauto. }
        destruct (watch_target (strip raw)) as [t|].
        { simplify_eq. left. split; [by case_bool_decide | eauto 10]. }
        destruct (pending_sessions st !! c) as [session|] eqn:Hsession.
        -- destruct (authoring settings st c session (strip raw)) as [[st1 acts1]|] eqn:Hres.
           ++ simplify_eq. left. split; [by eapply authoring_appended | eauto 10].
           ++ simplify_eq. right. exists message, raw. by repeat split.
        -- simplify_eq. right. exists message, raw. by repeat split.
      * simplify_eq. left. split; [destruct (watch_match (strip raw)); reflexivity | eauto].
    + simpl in H. simplify_eq. left.
      split; [destruct (watch_match (strip raw)); reflexivity | eauto].
  - right. exists message, raw. simplify_eq. repeat split; [done | congruence].
Qed.

(** ** Messages that do not come from the owner *)

Lemma handler_incoming (settings : Settings.t) (st : State) (event : Event.t)
    (message : Message.t) :
  Event.message event = Some message ->
  Message.out message = false ->
  handler settings st event
  = (st,
     match Message.text message with
     | Some raw =>
         if nonempty raw then
           watch settings st event message raw (default 0%Z (Event.chat_id event))
         else []
     | None => []
     end).
Proof.
  intros Hmessage Hout. unfold handler. rewrite Hmessage, Hout.
  destruct (Message.text message) as [raw|]; [|reflexivity].
  by destruct (nonempty raw).
Qed.

(** Lines 229-236: an outgoing message outside the self-conversation ends
    the handler, whether or not it looks like a start command. *)
Lemma handler_outgoing_elsewhere (settings : Settings.t) (st : State) (event : Event.t)
    (message : Message.t) (raw : string) :
  Event.message event = Some message ->
  Message.text message = Some raw ->
  nonempty raw = true ->
  Message.out message = true ->
  Message.sender_id message ≠ Some (default 0%Z (Event.chat_id event)) ->
  handler settings st event
  = (st, match watch_match (strip raw) with
         | Some _ => [SendMessage "me" redirect_notice]
         | None => []
         end).
Proof.
  intros Hmessage Htext Hraw Hout Hsender. unfold handler.
  rewrite Hmessage, Htext, Hraw, Hout. cbv zeta. simpl negb. cbv iota.
  destruct (Message.sender_id message) as [sender|]; [|reflexivity].
  rewrite bool_decide_eq_false_2; [reflexivity | congruence].
Qed.

Lemma appended_map (f : Rule -> MessageRecord.t) (matches : list Rule) :
  appended (List.map (fun rule => Append (f rule)) matches) = List.map f matches.
Proof. induction matches as [|r matches IH]; simpl; [reflexivity | by rewrite IH]. Qed.

Lemma watch_outside_cache (settings : Settings.t) (st : State) (event : Event.t)
    (message : Message.t) (raw : string) (c : Z) (cache : gset Z) :
  RuleSet.chat_ids (rule_set st) = Some cache -> c ∉ cache ->
  watch settings st event message raw c = [].
Proof.
  intros Hcache Hc. unfold watch. rewrite Hcache.
  destruct (outside (manual_chat_filter settings) c); [reflexivity|].
  by rewrite bool_decide_eq_false_2.
Qed.

Lemma watch_labels (settings : Settings.t) (st : State) (event : Event.t)
    (message : Message.t) (raw : string) (c : Z) :
  outside (manual_chat_filter settings) c = false ->
  RuleSet.chat_ids (rule_set st) = None ->
  Message.out message = false ->
  Settings.ignore_bot_messages settings
  && match Message.sender message with
     | Some sender => Sender.bot sender
     | None => false
     end = false ->
  List.map MessageRecord.label (appended (watch settings st event message raw c))
  = List.map label (RuleSet.match_ (rule_set st) (Some c) raw).
Proof.
  intros Hmanual Hcache Hout Hbot. unfold watch.
  rewrite Hmanual, Hcache, Hout, Hbot, andb_false_r.
  by rewrite appended_map, List.map_map.
Qed.

(** C10. Cache shadowing of unscoped rules: in a consistent rule set where
    at least one rule declares chat scoping, an event of a chat that is in
    the scope of no rule hands nothing to the sink, and if it is not an
    outgoing message the handler does nothing at all with it; so no rule,
    scoped or not, yields a record for such a chat.  When no rule declares
    chat scoping, the [chat_ids] accessor yields [None] and the filter is
    skipped: an incoming message that passes the other filters is logged
    once for every rule [match] returns. *)
Theorem cache_shadowing (settings : Settings.t) (st : State) (event : Event.t) :
  cache_consistent (rule_set st) ->
  let c := default 0%Z (Event.chat_id event) in
  let rules := RuleSet.rules (rule_set st) in
  ((exists r, r ∈ rules /\ scoped (chat_ids r) = true) ->
   (forall r s, r ∈ rules -> chat_ids r = Some s -> c ∉ s) ->
   appended (snd (handler settings st event)) = []
   /\ (forall message,
         Event.message event = Some message -> Message.out message = false ->
         handler settings st event = (st, [])))
  /\ ((forall r, r ∈ rules -> scoped (chat_ids r) = false) ->
      RuleSet.chat_ids (rule_set st) = None
      /\ (forall message raw,
            Event.message event = Some message ->
            Message.text message = Some raw ->
            nonempty raw = true ->
            Message.out message = false ->
            outside (manual_chat_filter settings) c = false ->
            Settings.ignore_bot_messages settings
            && match Message.sender message with
               | Some sender => Sender.bot sender
               | None => false
               end = false ->
            List.map MessageRecord.label (appended (snd (handler settings st event)))
            = List.map label (RuleSet.match_ (rule_set st) (Some c) raw))).
Proof.
  intros Hcons c rules. split.
  - intros (r & Hr & Hscoped) Houtside.
    assert (Hcache : RuleSet.chat_ids (rule_set st) = Some (RuleSet._chat_ids (rule_set st))).
    { unfold RuleSet.chat_ids. rewrite bool_decide_eq_false_2; [reflexivity|].
      unfold scoped in Hscoped. destruct (chat_ids r) as [s|] eqn:Hs; [|discriminate].
      apply negb_true_iff, bool_decide_eq_false in Hscoped.
      apply set_choose_L in Hscoped as [x Hx].
      assert (x ∈ RuleSet._chat_ids (rule_set st)); [|set_solver].
      rewrite Hcons. apply elem_of_chat_cache. eauto. }
    assert (Hc : c ∉ RuleSet._chat_ids (rule_set st)).
    { rewrite Hcons. intros (r' & s' & Hr' & Hs' & Hin)%elem_of_chat_cache.
      by apply (Houtside r' s'). }
    split.
    + destruct (handler settings st event) as [st' acts] eqn:Hrun. simpl.
      apply handler_cases in Hrun as [[Hnone _]|(message & raw & _ & _ & _ & _ & ->)].
      * exact Hnone.
      * by rewrite (watch_outside_cache _ _ _ _ _ _ _ Hcache Hc).
    + intros message Hmessage Hout.
      rewrite (handler_incoming _ _ _ _ Hmessage Hout).
      destruct (Message.text message) as [raw|]; [|reflexivity].
      destruct (nonempty raw); [|reflexivity].
      by rewrite (watch_outside_cache _ _ _ _ _ _ _ Hcache Hc).
  - intros Hunscoped.
    assert (Hcache : RuleSet.chat_ids (rule_set st) = None).
    { unfold RuleSet.chat_ids. rewrite bool_decide_eq_true_2; [reflexivity|].
      rewrite Hcons. apply set_eq. intros x. split; [|set_solver].
      intros (r & s & Hr & Hs & Hx)%elem_of_chat_cache.
      specialize (Hunscoped r Hr). unfold scoped in Hunscoped. rewrite Hs in Hunscoped.
      apply negb_false_iff, bool_decide_eq_true in Hunscoped. set_solver. }
    split; [exact Hcache|].
    intros message raw Hmessage Htext Hraw Hout Hmanual Hbot.
    rewrite (handler_incoming _ _ _ _ Hmessage Hout), Htext, Hraw. simpl snd.
    by apply watch_labels.
Qed.

Lemma cache_shadowing_witness :
  RuleSet.match_ (rule_set mixed_state) (Some 6%Z) "Big SALE today" = [anywhere_rule]
  /\ handler sample_settings mixed_state (someone_says 6%Z "Big SALE today")
     = (mixed_state, []).
Proof.
  split; [vm_compute; reflexivity|].
  destruct (cache_shadowing sample_settings mixed_state
              (someone_says 6%Z "Big SALE today") eq_refl) as [Hshadow _].
  destruct Hshadow as [_ Hdrop].
  - exists scoped_rule. split; [|reflexivity].
    apply list_elem_of_In. simpl. auto.
  - intros r s Hr Hs. apply list_elem_of_In in Hr. simpl in Hr.
    destruct Hr as [<-|[<-|[]]]; simpl in Hs; [discriminate|].
    injection Hs as <-. simpl. set_solver.
  - by apply (Hdrop _ eq_refl).
Defined.

(** ** Outgoing messages outside the self-conversation *)

(** C1. The owner (id 7) writes [Big SALE today] in chat 6.  The text is
    not a start command, self messages are not ignored, no allow-list is
    set, no rule is scoped and the rule [Sale] matches the text; yet the
    handler stops at lines 229-236 and hands nothing to the sink, while the
    same text sent by someone else in that chat is logged once. *)
Theorem outgoing_elsewhere_not_logged :
  watch_match (strip "Big SALE today") = None
  /\ Settings.ignore_self_messages sample_settings = false
  /\ outside (manual_chat_filter sample_settings) 6%Z = false
  /\ RuleSet.chat_ids (rule_set unscoped_state) = None
  /\ RuleSet.match_ (rule_set unscoped_state) (Some 6%Z) "Big SALE today" = [anywhere_rule]
  /\ handler sample_settings unscoped_state (owner_says_in 6%Z "Big SALE today")
     = (unscoped_state, [])
  /\ List.map MessageRecord.label
       (appended (snd (handler sample_settings unscoped_state
                         (someone_says 6%Z "Big SALE today"))))
     = ["Sale"].
Proof. repeat split; vm_compute; reflexivity. Qed.

(** ** Well-formed rules *)

(** [load_rule] on an object, with its parts named. *)
Lemma load_rule_dict (d : list (string * json)) :
  load_rule (JDict d)
  = if negb (nonempty (entry_label d)) then
      Raise (RuntimeError "Setiap rule wajib memiliki field 'label'.")
    else
      include_all <- entry_include_all d ;;
      include_any <- entry_include_any d ;;
      exclude <- _ensure_list (dict_get d "exclude") "exclude" (entry_label d) ;;
      chat_ids <- _parse_chat_ids (dict_get d "chats") (entry_label d) ;;
      if negb (nonempty_list include_all) && negb (nonempty_list include_any) then
        Raise (RuntimeError
          ("Rule '" ++ entry_label d ++ "' perlu setidaknya satu keyword via "
           ++ "'include_all' atau 'include_any'."))
      else
        Ok {| label := entry_label d; include_all := include_all;
              include_any := include_any; exclude := exclude; chat_ids := chat_ids |}.
Proof. reflexivity. Qed.

Lemma nonempty_false (s : string) : nonempty s = false <-> s = "".
Proof. destruct s; simpl; split; congruence. Qed.

Lemma nonempty_true (s : string) : nonempty s = true <-> s ≠ "".
Proof. destruct s; simpl; split; congruence. Qed.

Lemma nonempty_list_true {A : Type} (l : list A) : nonempty_list l = true <-> l ≠ [].
Proof. destruct l; simpl; split; congruence. Qed.

Lemma load_rule_wf (raw : json) (r : Rule) : load_rule raw = Ok r -> rule_wf r.
Proof.
  unfold load_rule. destruct raw as [| | | | |d]; try discriminate.
  fold (entry_label d).
  destruct (nonempty (entry_label d)) eqn:Hlabel; simpl; [|discriminate].
  destruct (_ensure_list _ "include_all" _) as [ia|]; simpl; [|discriminate].
  destruct (_ensure_list _ "include_any" _) as [iy|]; simpl; [|discriminate].
  destruct (_ensure_list _ "exclude" _) as [ex|]; simpl; [|discriminate].
  destruct (_parse_chat_ids _ _) as [cs|]; simpl; [|discriminate].
  destruct (nonempty_list ia) eqn:Hia; simpl.
  - intros [= <-]. split; simpl; [by apply nonempty_true | left; by apply nonempty_list_true].
  - destruct (nonempty_list iy) eqn:Hiy; simpl; [|discriminate].
    intros [= <-]. split; simpl; [by apply nonempty_true | right; by apply nonempty_list_true].
Qed.

Lemma load_rule_lacks_required (raw : json) :
  lacks_required raw -> exists e, load_rule raw = Raise e.
Proof.
  destruct raw as [| | | | |d]; simpl; try done.
  unfold entry_include_all, entry_include_any. fold (entry_label d).
  intros [Hlabel|[Hall Hany]].
  - apply nonempty_false in Hlabel. rewrite Hlabel. simpl. eauto.
  - destruct (nonempty (entry_label d)); simpl; [|eauto].
    rewrite Hall, Hany. simpl.
    destruct (_ensure_list _ "exclude" _); simpl; [|eauto].
    destruct (_parse_chat_ids _ _); simpl; eauto.
Qed.

Lemma load_rules_loop_ok (acc : list Rule) (l : list json) (rules : list Rule) :
  load_rules_loop acc l = Ok rules ->
  exists new, rules = (acc ++ new)%list /\ Forall2 (fun raw r => load_rule raw = Ok r) l new.
Proof.
  revert acc; induction l as [|raw l IH]; intros acc; simpl.
  - intros [= <-]. exists []. by rewrite app_nil_r.
  - destruct (load_rule raw) as [r|] eqn:Hr; simpl; [|discriminate].
    intros (new & -> & Hnew)%IH. exists (r :: new).
    split; [by rewrite <- app_assoc | by constructor].
Qed.

Lemma load_rules_loop_raise (acc : list Rule) (l : list json) (raw : json) (e : exception) :
  raw ∈ l -> load_rule raw = Raise e -> exists e', load_rules_loop acc l = Raise e'.
Proof.
  revert acc; induction l as [|raw' l IH]; intros acc Hin Hraise.
  - by apply not_elem_of_nil in Hin.
  - simpl. destruct (load_rule raw') as [r|] eqn:Hr; simpl; [|eauto].
    apply elem_of_cons in Hin as [->|Hin]; [congruence | by apply IH].
Qed.

(** What [load_rules] returns when it returns: the rules of the entries of
    the file, in order, behind a freshly built cache. *)
Lemma load_rules_ok (path : string) (file : file_content) (rs : RuleSet.t) :
  load_rules path file = Ok rs ->
  exists (l : list json) (rules : list Rule),
    rs = RuleSet.init rules /\ Forall2 (fun raw r => load_rule raw = Ok r) l rules.
Proof.
  unfold load_rules.
  destruct file as [| | | |data]; try discriminate;
    try (intros [= <-]; exists [], []; by split).
  assert (Hlist : forall v,
            match v with
            | JList l => rules <- load_rules_loop [] l;; Ok (RuleSet.init rules)
            | _ => Raise (RuntimeError ("Field 'rules' pada '" ++ path ++ "' harus berupa list."))
            end = Ok rs ->
            exists (l : list json) (rules : list Rule),
              rs = RuleSet.init rules
              /\ Forall2 (fun raw r => load_rule raw = Ok r) l rules).
  { intros [| | | |l|]; try discriminate.
    destruct (load_rules_loop [] l) as [rules|] eqn:Hloop; simpl; [|discriminate].
    intros [= <-]. apply load_rules_loop_ok in Hloop as (new & -> & Hnew).
    by exists l, new. }
  destruct data as [| | | |l|d]; simpl; try discriminate;
    [apply (Hlist (JList l)) | apply Hlist].
Qed.

Lemma load_rules_wf (path : string) (file : file_content) (rs : RuleSet.t) (r : Rule) :
  load_rules path file = Ok rs -> r ∈ RuleSet.rules rs -> rule_wf r.
Proof.
  intros (l & rules & -> & Hall)%load_rules_ok Hr. simpl in Hr.
  apply list_elem_of_lookup in Hr as [i Hi].
  destruct (Forall2_lookup_r _ _ _ _ _ Hall Hi) as (raw & _ & Hraw).
  by apply (load_rule_wf raw).
Qed.

(** ** The invariant of the running bot *)

Lemma store_inv (st : State) (c : Z) (s : PendingRuleSession.t) :
  state_inv st -> session_wf s -> state_inv (store st c s).
Proof.
  intros (Hcache & Hrules & Hsessions) Hs. split; [done | split; [done|]].
  intros c' s'. unfold store. cbn [pending_sessions].
  rewrite lookup_insert. case_decide; [by intros [= <-] | apply Hsessions].
Qed.

Lemma pop_inv (st : State) (c : Z) : state_inv st -> state_inv (pop st c).
Proof.
  intros (Hcache & Hrules & Hsessions). split; [done | split; [done|]].
  intros c' s'. unfold pop. cbn [pending_sessions].
  intros [_ H]%lookup_delete_Some. by apply (Hsessions c').
Qed.

Lemma authoring_inv (settings : Settings.t) (st st' : State) (c : Z)
    (session : PendingRuleSession.t) (text : string) (acts : list action) :
  state_inv st -> session_wf session ->
  authoring settings st c session text = Some (st', acts) ->
  state_inv st'.
Proof.
  intros Hinv Hwf. unfold authoring.
  destruct (String.eqb (PendingRuleSession.step session) "label") eqn:E1.
  { destruct (nonempty text) eqn:Htext; simpl; intros [= <- <-]; [|done].
    apply store_inv; [done|]. right. left. split; [by left|].
    exists text. split; [done | by apply nonempty_true]. }
  destruct (String.eqb (PendingRuleSession.step session) "include_all") eqn:E2.
  { apply String.eqb_eq in E2. intros [= <- <-].
    apply store_inv; [done|]. right. left. split; [by right|].
    destruct Hwf as [H|[[_ H]|(H & _)]]; [congruence | exact H | congruence]. }
  destruct (String.eqb (PendingRuleSession.step session) "include_any") eqn:E3.
  { apply String.eqb_eq in E3.
    destruct (negb (nonempty_list (_parse_keywords text))
              && negb (nonempty_list (PendingRuleSession.include_all session))) eqn:Hk;
      intros [= <- <-]; [done|].
    apply store_inv; [done|]. right. right. split; [done|]. cbn.
    split; [destruct Hwf as [H|[[_ H]|(H & _)]]; [congruence | exact H | congruence]|].
    apply andb_false_iff in Hk as [Hk|Hk]; apply negb_false_iff, nonempty_list_true in Hk;
      [by right | by left]. }
  destruct (String.eqb (PendingRuleSession.step session) "exclude") eqn:E4; [|discriminate].
  apply String.eqb_eq in E4. cbn. intros [= <- <-].
  destruct Hinv as (Hcache & Hrules & Hsessions).
  destruct Hwf as [H|[[[H|H] _]|(_ & (l & Hl & Hne) & Hkw)]]; try congruence.
  split; [|split].
  - by apply add_rule_cache_consistent.
  - intros r. unfold rule_set, RuleRepository.ruleset, RuleSet.rules. cbn.
    intros [Hr|Hr%list_elem_of_singleton]%elem_of_app; [by apply Hrules|].
    subst r. split; cbn; [by rewrite Hl | exact Hkw].
  - intros c' s'. cbn. intros [_ H']%lookup_delete_Some. by apply (Hsessions c').
Qed.

Lemma handler_inv (settings : Settings.t) (st : State) (event : Event.t) :
  state_inv st -> state_inv (fst (handler settings st event)).
Proof.
  intros Hinv.
  destruct (handler settings st event) as [st' acts] eqn:Hrun. simpl.
  apply handler_cases in Hrun
    as [[_ [->|[->|[(r & t & ->)|(s & text & acts' & Hs & Hres)]]]]
       |(message & raw & _ & _ & _ & -> & _)].
  - done.
  - by apply pop_inv.
  - apply store_inv; [done | by left].
  - pose proof Hinv as (_ & _ & Hsessions).
    eapply authoring_inv; [exact Hinv | by eapply Hsessions | exact Hres].
  - done.
Qed.

Lemma reachable_inv (settings : Settings.t) (path : string) (st : State) :
  reachable settings path st -> state_inv st.
Proof.
  induction 1 as [file repo Hinit | st event _ IH].
  - unfold RuleRepository.init in Hinit.
    destruct (load_rules path file) as [rs|] eqn:Hload; simpl in Hinit; [|discriminate].
    injection Hinit as <-. split; [|split].
    + apply load_rules_ok in Hload as (l & rules & -> & _). apply init_cache_consistent.
    + intros r Hr. by apply (load_rules_wf path file rs).
    + intros c s. cbn. by rewrite lookup_empty.
  - by apply handler_inv.
Qed.

(** C5. Rule well-formedness: every rule [load] returns, and every rule of
    the rule set in every state the bot reaches from a loaded rules file by
    handling events, has a non-empty label and at least one keyword in
    [include_all] or [include_any]; [load] raises when an entry of the file
    has no label or no such keyword; and the [include_any] step answers
    with its complaint and leaves the state as it is while both keyword
    lists would be empty. *)
Theorem rule_well_formedness :
  (forall path file rs r,
     load_rules path file = Ok rs -> r ∈ RuleSet.rules rs -> rule_wf r)
  /\ (forall settings path st r,
        reachable settings path st -> r ∈ RuleSet.rules (rule_set st) -> rule_wf r)
  /\ (forall path l raw,
        raw ∈ l -> lacks_required raw ->
        (exists e, load_rules path (Parsed (JList l)) = Raise e)
        /\ (exists e, load_rules path (Parsed (JDict [("rules", JList l)])) = Raise e))
  /\ (forall settings st c session text,
        PendingRuleSession.step session = "include_any" ->
        _parse_keywords text = [] ->
        PendingRuleSession.include_all session = [] ->
        authoring settings st c session text
        = Some (st, [Respond ("Minimal harus ada satu keyword. Masukkan keyword include_any "
                              ++ "dipisahkan koma.")])).
Proof.
  split; [|split; [|split]].
  - apply load_rules_wf.
  - intros settings path st r Hreach Hr.
    by apply (reachable_inv settings path st Hreach).
  - intros path l raw Hin [e Hraise]%load_rule_lacks_required.
    destruct (load_rules_loop_raise [] l raw e Hin Hraise) as [e' Hloop].
    destruct l as [|raw' l]; [by apply not_elem_of_nil in Hin|].
    split; exists e'; unfold load_rules; cbn -[load_rules_loop]; by rewrite Hloop.
  - intros settings st c session text Hstep Hkw Hall.
    unfold authoring. by rewrite Hstep, Hkw, Hall.
Qed.

Lemma rule_well_formedness_witness :
  rule_wf {| label := "Promo"; include_all := ["buy now"]; include_any := [];
             exclude := []; chat_ids := Some {[42%Z]} |}
  /\ (exists e, load_rules "watch_rules.json"
                  (Parsed (JList [JDict [("label", JStr " "); ("include_all", JStr "x")]]))
                = Raise e).
Proof.
  destruct rule_well_formedness as (_ & Hreach & Hraise & _).
  split.
  - apply (Hreach sample_settings "watch_rules.json"
             (fst (run_handler sample_settings fresh_state
                     [owner_says "!watch 42"; owner_says "Promo"; owner_says "buy now";
                      owner_says "-"; owner_says "-"]))).
    + rewrite !run_handler_cons. cbn [run_handler fst].
      do 5 apply reachable_step.
      by apply (reachable_start sample_settings "watch_rules.json" Missing (sample_repo [])).
    + apply list_elem_of_In. vm_compute. auto.
  - apply (Hraise "watch_rules.json" _ (JDict [("label", JStr " "); ("include_all", JStr "x")])).
    + apply list_elem_of_In. simpl. auto.
    + left. reflexivity.
Defined.

(** ** Saving and loading *)

Lemma map_py_str (l : list string) : List.map py_str (List.map JStr l) = l.
Proof. induction l as [|s l IH]; simpl; [reflexivity | by rewrite IH]. Qed.

Lemma _ensure_list_strings (l : list string) (field label : string) :
  _ensure_list (JList (List.map JStr l)) field label = Ok l.
Proof. simpl. by rewrite map_py_str. Qed.

Lemma _parse_chat_ids_loop_ints (acc : gset Z) (l : list Z) (label : string) :
  _parse_chat_ids_loop acc (List.map JInt l) label = Ok (acc ∪ list_to_set l).
Proof.
  revert acc; induction l as [|z l IH]; intros acc; simpl.
  - f_equal. set_solver.
  - rewrite IH. f_equal. set_solver.
Qed.

Lemma list_to_set_sorted (s : gset Z) : list_to_set (sorted s) = s.
Proof.
  unfold sorted.
  rewrite (list_to_set_perm_L _ _ (merge_sort_Permutation Z.le (elements s))).
  apply list_to_set_elements_L.
Qed.

Lemma load_rule_save_entry (r : Rule) : storable r -> load_rule (save_entry r) = Ok r.
Proof.
  destruct r as [l ia iy ex cs]. intros ([Hl Hkw] & Hstrip & Hcs).
  simpl in Hl, Hkw, Hstrip, Hcs. apply nonempty_true in Hl.
  set (tail := match cs with
               | Some s =>
                   if scoped (Some s) then [("chats", JList (List.map JInt (sorted s)))]
                   else []
               | None => []
               end).
  set (d := ([("label", JStr l);
              ("include_all", JList (List.map JStr ia));
              ("include_any", JList (List.map JStr iy));
              ("exclude", JList (List.map JStr ex))] ++ tail)%list).
  change (save_entry {| label := l; include_all := ia; include_any := iy;
                        exclude := ex; chat_ids := cs |}) with (JDict d).
  assert (Hname : dict_get d "name" = JNull).
  { unfold d, tail. destruct cs as [s|]; [destruct (scoped (Some s))|]; reflexivity. }
  assert (Hinclude : dict_get d "include" = JNull).
  { unfold d, tail. destruct cs as [s|]; [destruct (scoped (Some s))|]; reflexivity. }
  assert (Hchats : _parse_chat_ids (dict_get d "chats") l = Ok cs).
  { unfold d, tail. destruct cs as [s|]; [|reflexivity].
    unfold scoped. rewrite bool_decide_eq_false_2 by congruence.
    cbn [negb app dict_get String.eqb Ascii.eqb Bool.eqb _parse_chat_ids].
    rewrite _parse_chat_ids_loop_ints, list_to_set_sorted, union_empty_l_L.
    cbn [bind]. by rewrite bool_decide_eq_false_2 by congruence. }
  assert (Hlabel : entry_label d = l).
  { unfold entry_label. rewrite Hname.
    change (dict_get d "label") with (JStr l).
    unfold py_or. cbn [truthy]. rewrite Hl. cbn [truthy]. by rewrite Hl. }
  assert (Hall : _ensure_list (py_or (dict_get d "include_all") (dict_get d "include"))
                   "include_all" l = Ok ia).
  { rewrite Hinclude. change (dict_get d "include_all") with (JList (List.map JStr ia)).
    destruct ia as [|k ia]; [reflexivity | apply (_ensure_list_strings (k :: ia))]. }
  rewrite load_rule_dict. unfold entry_include_all, entry_include_any.
  rewrite Hlabel, Hl, Hall, Hchats.
  change (dict_get d "include_any") with (JList (List.map JStr iy)).
  change (dict_get d "exclude") with (JList (List.map JStr ex)).
  rewrite !_ensure_list_strings. cbn [negb bind].
  destruct Hkw as [H|H]; apply nonempty_list_true in H; rewrite H; simpl;
    [reflexivity | by rewrite andb_false_r].
Qed.

Lemma load_rules_loop_saved (acc rules : list Rule) :
  Forall storable rules ->
  load_rules_loop acc (List.map save_entry rules) = Ok (acc ++ rules)%list.
Proof.
  intros Hall. revert acc. induction Hall as [|r rules Hr _ IH]; intros acc.
  - simpl. by rewrite app_nil_r.
  - cbn [List.map load_rules_loop]. rewrite (load_rule_save_entry r Hr). cbn [bind].
    by rewrite IH, <- app_assoc.
Qed.

Lemma load_save_rules (path : string) (rules : list Rule) :
  Forall storable rules ->
  load_rules path (save_rules path rules) = Ok (RuleSet.init rules).
Proof.
  intros Hall. unfold load_rules, save_rules.
  cbn [dict_get String.eqb Ascii.eqb Bool.eqb bind].
  assert (Hor : py_or (JList (List.map save_entry rules)) (JList [])
                = JList (List.map save_entry rules)) by (by destruct rules).
  rewrite Hor. by rewrite load_rules_loop_saved.
Qed.




(** ** Errors of [load_rules] *)

Lemma append_assoc (a b c : string) : (a ++ b) ++ c = a ++ b ++ c.
Proof. induction a as [|x a IH]; unfold_append; [reflexivity | by rewrite IH]. Qed.







(** ** The target of a start command *)

Lemma is_digit_not_space (c : ascii) : is_digit c = true -> is_space c = false.
Proof.
  unfold is_digit, is_space. cbv zeta.
  intros [H1 H2]%andb_true_iff. apply Nat.leb_le in H1.
  apply orb_false_iff. split; apply andb_false_iff.
  - right. apply Nat.leb_gt. lia.
  - right. apply Nat.leb_gt. lia.
Qed.

Lemma strip_no_space (s : string) :
  all_chars (fun c => negb (is_space c)) s = true -> strip s = s.
Proof.
  unfold strip. intros Hs.
  assert (Hr : rstrip s = s).
  { induction s as [|c s IH]; [reflexivity|].
    simpl in Hs. apply andb_true_iff in Hs as [Hc Hs]. apply negb_true_iff in Hc.
    simpl. rewrite (IH Hs), Hc. by destruct s. }
  rewrite Hr. destruct s as [|c s]; [reflexivity|].
  simpl in Hs. apply andb_true_iff in Hs as [Hc _]. apply negb_true_iff in Hc.
  simpl. by rewrite Hc.
Qed.

Lemma take_digits_no_space (s : string) :
  all_chars (fun c => negb (is_space c)) (take_digits s) = true.
Proof.
  induction s as [|c s IH]; simpl; [reflexivity|].
  destruct (is_digit c) eqn:Hc; [|reflexivity].
  simpl. by rewrite (is_digit_not_space c Hc), IH.
Qed.

Lemma digits_value_take_digits (acc : Z) (after_digit : bool) (s : string) :
  after_digit = true \/ nonempty (take_digits s) = true ->
  is_Some (digits_value acc after_digit (take_digits s)).
Proof.
  revert acc after_digit; induction s as [|c s IH]; intros acc b Hb; simpl.
  - destruct Hb as [->|Hb]; [by eexists | discriminate].
  - destruct (is_digit c) eqn:Hc; simpl.
    + rewrite Hc. apply IH. by left.
    + destruct Hb as [->|Hb]; [by eexists | simpl in Hb; by rewrite Hc in Hb].
Qed.

(** [int(match.group(1))] never raises: the group is an optional minus sign
    followed by digits. *)
Lemma watch_match_int (text group : string) :
  watch_match text = Some group -> is_Some (int_of_str group).
Proof.
  unfold watch_match.
  destruct (strip_prefix_ci "!watch" text) as [rest|]; [|discriminate].
  destruct (starts_with_space rest); [|discriminate].
  assert (Hdigits : forall r,
            nonempty (take_digits r) = true -> is_Some (int_of_str (take_digits r))).
  { intros r Hr. unfold int_of_str.
    rewrite (strip_no_space _ (take_digits_no_space r)).
    pose proof (digits_value_take_digits 0 false r (or_intror Hr)) as Hsome.
    destruct r as [|c r]; [discriminate|]. simpl in *.
    destruct (is_digit c) eqn:Hc; [|discriminate].
    destruct c as [[] [] [] [] [] [] [] []]; try discriminate; exact Hsome. }
  assert (Hminus : forall r,
            nonempty (take_digits r) = true ->
            is_Some (int_of_str (String "-" (take_digits r)))).
  { intros r Hr. unfold int_of_str.
    rewrite (strip_no_space (String "-" (take_digits r)))
      by (simpl; apply take_digits_no_space).
    destruct (digits_value_take_digits 0 false r (or_intror Hr)) as [z Hz].
    rewrite Hz. by eexists. }
  destruct (lstrip rest) as [|c r] eqn:Hrest.
  - simpl. discriminate.
  - destruct (Ascii.eqb c "-") eqn:Hc.
    + apply Ascii.eqb_eq in Hc as ->.
      destruct (nonempty (take_digits r)) eqn:Hr; [|discriminate].
      intros [= <-]. by apply Hminus.
    + intros H.
      assert (H' : (if nonempty (take_digits (String c r))
                    then Some (take_digits (String c r)) else None) = Some group).
      { rewrite <- H.
        destruct c as [[] [] [] [] [] [] [] []]; try reflexivity.
        vm_compute in Hc. discriminate Hc. }
      destruct (nonempty (take_digits (String c r))) eqn:Hr; [|discriminate].
      injection H' as <-. exact (Hdigits (String c r) Hr).
Qed.

(** * Further properties of the code *)

(** ** [RuleSet.match] and [RuleSet.add_rule] *)

Lemma filter_sublist {A : Type} (f : A -> bool) (l : list A) :
  List.filter f l `sublist_of` l.
Proof.
  induction l as [|x l IH]; simpl; [constructor|].
  destruct (f x); by constructor.
Qed.

Lemma match_loop_sublist (chat_id : option Z) (normalized : string) (rules : list Rule) :
  RuleSet.match_loop chat_id normalized rules `sublist_of` rules.
Proof. rewrite match_loop_filter. apply filter_sublist. Qed.

(** X1. [match] returns some of the rules of the set, in the order of the
    set: it neither invents, nor repeats, nor reorders rules. *)
Theorem match_sublist (self : RuleSet.t) (chat_id : option Z) (text : string) :
  RuleSet.match_ self chat_id text `sublist_of` RuleSet.rules self.
Proof. apply match_loop_sublist. Qed.



Lemma cache_consistent_init (self : RuleSet.t) :
  cache_consistent self -> self = RuleSet.init (RuleSet.rules self).
Proof. destruct self as [rules cache]. unfold cache_consistent. simpl. by intros ->. Qed.

Lemma add_rule_init (self : RuleSet.t) (rule : Rule) :
  cache_consistent self ->
  RuleSet.add_rule self rule = RuleSet.init (RuleSet.rules self ++ [rule]).
Proof.
  intros Hcons.
  apply (cache_consistent_init (RuleSet.add_rule self rule)).
  by apply add_rule_cache_consistent.
Qed.

(** X3. On a rule set whose cache agrees with its rules, [add_rule] gives
    what the constructor builds from the longer list of rules: updating the
    cache by the new rule's scope is the same as rebuilding it. *)
Theorem add_rule_rebuilds (self : RuleSet.t) (rule : Rule) :
  cache_consistent self ->
  RuleSet.add_rule self rule = RuleSet.init (RuleSet.rules self ++ [rule]).
Proof. apply add_rule_init. Qed.

Lemma add_rule_rebuilds_witness :
  RuleSet.add_rule (RuleSet.init [promo_rule]) scoped_rule
  = RuleSet.init [promo_rule; scoped_rule].
Proof.
  apply (add_rule_rebuilds (RuleSet.init [promo_rule]) scoped_rule).
  reflexivity.
Defined.

(** X4. Adding a rule does not change which of the older rules match: the
    rules [match] returns afterwards are those it returned before,
    followed by the new rule when it matches on its own. *)
Theorem match_add_rule (self : RuleSet.t) (rule : Rule) (chat_id : option Z)
    (text : string) :
  RuleSet.match_ (RuleSet.add_rule self rule) chat_id text
  = (RuleSet.match_ self chat_id text
     ++ RuleSet.match_ (RuleSet.init [rule]) chat_id text)%list.
Proof.
  unfold RuleSet.match_, RuleSet.add_rule. cbn [RuleSet._rules RuleSet.init].
  rewrite !match_loop_filter. apply List.filter_app.
Qed.

(** ** What [load_rules] returns can be saved and loaded again *)

Lemma _parse_chat_ids_scope (value : json) (label : string) (cs : option (gset Z)) :
  _parse_chat_ids value label = Ok cs -> cs ≠ Some ∅.
Proof.
  destruct value as [| | | |items|]; simpl; try discriminate.
  - by intros [= <-].
  - destruct (_parse_chat_ids_loop ∅ items label) as [s|]; simpl; [|discriminate].
    case_bool_decide as Hs; intros [= <-]; congruence.
Qed.

Lemma load_rule_storable (raw : json) (r : Rule) : load_rule raw = Ok r -> storable r.
Proof.
  intros Hload. split; [by apply (load_rule_wf raw)|].
  destruct raw as [| | | | |d]; try discriminate.
  rewrite load_rule_dict in Hload.
  destruct (negb (nonempty (entry_label d))); [discriminate|].
  destruct (entry_include_all d) as [ia|]; simpl in Hload; [|discriminate].
  destruct (entry_include_any d) as [iy|]; simpl in Hload; [|discriminate].
  destruct (_ensure_list _ "exclude" _) as [ex|]; simpl in Hload; [|discriminate].
  destruct (_parse_chat_ids _ _) as [cs|] eqn:Hcs; simpl in Hload; [|discriminate].
  destruct (negb (nonempty_list ia) && negb (nonempty_list iy)); [discriminate|].
  injection Hload as <-. simpl. split.
  - unfold entry_label. apply strip_idem.
  - by apply (_parse_chat_ids_scope _ _ _ Hcs).
Qed.

Lemma load_rules_storable (path : string) (file : file_content) (rs : RuleSet.t) :
  load_rules path file = Ok rs ->
  rs = RuleSet.init (RuleSet.rules rs) /\ Forall storable (RuleSet.rules rs).
Proof.
  intros (l & rules & -> & Hall)%load_rules_ok. split; [reflexivity|]. simpl.
  induction Hall as [|raw r l rules Hr _ IH]; constructor; [|exact IH].
  by apply (load_rule_storable raw).
Qed.

(** X5. Whatever rules file [load_rules] accepts, saving the rules it
    returned and loading the saved file gives the same rule set again:
    aliases, single strings and chat ids written as strings are normalised
    once and for all. *)
Theorem load_save_load (path : string) (file : file_content) (R : RuleSet.t) :
  load_rules path file = Ok R ->
  load_rules path (save_rules path (RuleSet.rules R)) = Ok R.
Proof.
  intros [Hinit Hall]%load_rules_storable.
  rewrite (load_save_rules path _ Hall). by rewrite <- Hinit.
Qed.

Lemma load_save_load_witness :
  load_rules "watch_rules.json"
    (save_rules "watch_rules.json"
       [{| label := "Promo"; include_all := ["buy"]; include_any := [];
           exclude := []; chat_ids := Some {[5%Z]} |}])
  = Ok (RuleSet.init
          [{| label := "Promo"; include_all := ["buy"]; include_any := [];
              exclude := []; chat_ids := Some {[5%Z]} |}]).
Proof.
  apply (load_save_load "watch_rules.json"
           (Parsed (JList [JDict [("name", JStr " Promo "); ("include", JStr "buy");
                                  ("chats", JList [JStr " 5"; JInt 5])]]))
           (RuleSet.init
              [{| label := "Promo"; include_all := ["buy"]; include_any := [];
                  exclude := []; chat_ids := Some {[5%Z]} |}])).
  vm_compute. reflexivity.
Defined.

(** ** Steps of the running bot *)

(** The ways the handler changes its state: all of them belong to a message
    of the owner in the self-conversation, whose chat id is the key of the
    one session they touch. *)
Lemma handler_steps (settings : Settings.t) (st st' : State) (event : Event.t)
    (acts : list action) :
  handler settings st event = (st', acts) ->
  let c := default 0%Z (Event.chat_id event) in
  st' = st
  \/ st' = pop st c
  \/ (exists t, st' = store st c (PendingRuleSession.init c c t))
  \/ (exists session raw acts',
        pending_sessions st !! c = Some session
        /\ authoring settings st c session (strip raw) = Some (st', acts')).
Proof.
  intros H. unfold handler in H. cbv zeta in H |- *.
  set (c := default 0%Z (Event.chat_id event)) in *.
  destruct (Event.message event) as [message|]; [|simplify_eq; eauto].
  destruct (Message.text message) as [raw|] eqn:Htext; [|simplify_eq; eauto].
  destruct (nonempty raw); simpl in H; [|simplify_eq; eauto].
  destruct (Message.out message) eqn:Hout; simpl in H; [|simplify_eq; eauto].
  destruct (Message.sender_id message) as [sender|] eqn:Hsender;
    [|simpl in H; simplify_eq; eauto].
  case_bool_decide as Hsaved; simpl in H; [|simplify_eq; eauto].
  subst sender.
  destruct (bool_decide (is_Some (pending_sessions st !! c))
            && String.eqb (lower (strip raw)) "!cancel"); [simplify_eq; eauto|].
  destruct (watch_target (strip raw)) as [t|]; [simplify_eq; eauto 10|].
  destruct (pending_sessions st !! c) as [session|] eqn:Hsession; [|simplify_eq; eauto].
  destruct (authoring settings st c session (strip raw)) as [[st1 acts1]|] eqn:Hres;
    simplify_eq; eauto 10.
Qed.

(** What the authoring dialogue does to the state: it stores the session
    with new fields under the same key, or it appends one rule scoped to
    the target chat, saves the rules and drops the session. *)
Lemma authoring_steps (settings : Settings.t) (st st' : State) (c : Z)
    (session : PendingRuleSession.t) (text : string) (acts : list action) :
  authoring settings st c session text = Some (st', acts) ->
  st' = st
  \/ (exists session',
        st' = store st c session'
        /\ PendingRuleSession.origin_chat_id session'
           = PendingRuleSession.origin_chat_id session
        /\ PendingRuleSession.requested_by session'
           = PendingRuleSession.requested_by session
        /\ PendingRuleSession.target_chat_id session'
           = PendingRuleSession.target_chat_id session
        /\ (PendingRuleSession.label session' = PendingRuleSession.label session
            \/ PendingRuleSession.label session' = Some text))
  \/ (exists rule,
        st' = {| pending_sessions := delete c (pending_sessions st);
                 rule_repo := fst (RuleRepository.add_rule (rule_repo st) rule);
                 rules_file := snd (RuleRepository.add_rule (rule_repo st) rule) |}
        /\ label rule = default "" (PendingRuleSession.label session)
        /\ include_all rule = PendingRuleSession.include_all session
        /\ include_any rule = PendingRuleSession.include_any session
        /\ exclude rule = _parse_keywords text
        /\ chat_ids rule = Some {[PendingRuleSession.target_chat_id session]}).
Proof.
  unfold authoring. intros H.
  repeat case_match; simplify_eq; eauto 12.
  match goal with
  | Hadd : RuleRepository.add_rule _ ?r = _ |- _ =>
      right; right; exists r; rewrite Hadd; by repeat split
  end.
Qed.

Lemma bot_inv_state_inv (path : string) (st : State) : bot_inv path st -> state_inv st.
Proof.
  intros (Hcache & Hrules & _ & _ & Hsessions). split; [done | split].
  - intros r Hr. by apply (proj1 (Forall_forall _ _) Hrules r Hr).
  - intros c s Hs. by apply (Hsessions c s Hs).
Qed.

Lemma handler_bot_inv (settings : Settings.t) (path : string) (st : State)
    (event : Event.t) :
  bot_inv path st -> bot_inv path (fst (handler settings st event)).
Proof.
  intros Hinv. pose proof (bot_inv_state_inv path st Hinv) as Hstate.
  destruct Hinv as (Hcache & Hrules & Hpath & Hfile & Hsessions).
  destruct (handler settings st event) as [st' acts] eqn:Hrun. simpl.
  apply handler_steps in Hrun
    as [->|[->|[(t & ->)|(session & raw & acts' & Hsession & Hres)]]].
  - done.
  - repeat (split; [done|]). intros c s. cbn [pop pending_sessions].
    intros [_ Hs]%lookup_delete_Some. by apply Hsessions.
  - repeat (split; [done|]). intros c s. cbn [store pending_sessions].
    rewrite lookup_insert. case_decide as Hc; [|apply Hsessions].
    intros [= <-]. subst c. split; [by left|]. by repeat split.
  - pose proof (authoring_inv _ _ _ _ _ _ _ Hstate (proj1 (Hsessions _ _ Hsession)) Hres)
      as (Hcache' & Hwf' & Hsessions').
    destruct (Hsessions _ _ Hsession) as (_ & Horigin & Hrequester & Hstripped).
    apply authoring_steps in Hres
      as [->|[(s' & -> & Ho & Hr & _ & Hlabel)|(rule & -> & Hl & _ & _ & _ & Hscope)]].
    + done.
    + repeat (split; [done|]). intros c s. cbn [store pending_sessions].
      rewrite lookup_insert. case_decide as Hc; [|apply Hsessions].
      intros [= <-]. subst c. split; [|split; [congruence | split; [congruence|]]].
      * apply (Hsessions' (default 0%Z (Event.chat_id event))).
        cbn [store pending_sessions]. apply lookup_insert_eq.
      * intros l. destruct Hlabel as [->| ->]; [apply Hstripped|].
        intros [= <-]. apply strip_idem.
    + assert (Hrule : storable rule).
      { split; [|split].
        - apply Hwf'. unfold rule_set, RuleRepository.ruleset, RuleSet.rules. cbn.
          apply elem_of_app. right. by apply list_elem_of_singleton.
        - rewrite Hl. destruct (PendingRuleSession.label session) as [l|] eqn:Hsome;
            [by apply Hstripped | reflexivity].
        - rewrite Hscope. intros Hempty. apply (inj Some) in Hempty.
          by apply non_empty_singleton_L in Hempty. }
      assert (Hall : Forall storable (RuleSet.rules (rule_set st) ++ [rule])).
      { apply Forall_app. split; [done | by constructor]. }
      assert (Hset : RuleSet.add_rule (rule_set st) rule
                     = RuleSet.init (RuleSet.rules (rule_set st) ++ [rule]))
        by (by apply add_rule_init).
      split; [done | split; [exact Hall | split; [exact Hpath | split]]].
      * change (load_rules path
                  (save_rules (RuleRepository.path (rule_repo st))
                     (RuleSet.rules (RuleSet.add_rule (rule_set st) rule)))
                = Ok (RuleSet.add_rule (rule_set st) rule)).
        rewrite Hset. exact (load_save_rules path _ Hall).
      * intros c s. cbn. intros [_ Hs]%lookup_delete_Some. by apply Hsessions.
Qed.

Lemma reachable_bot_inv (settings : Settings.t) (path : string) (st : State) :
  reachable settings path st -> bot_inv path st.
Proof.
  induction 1 as [file repo Hinit | st event _ IH]; [|by apply handler_bot_inv].
  unfold RuleRepository.init in Hinit.
  destruct (load_rules path file) as [rs|] eqn:Hload; simpl in Hinit; [|discriminate].
  injection Hinit as <-.
  destruct (load_rules_storable path file rs Hload) as [Hinit Hall].
  split; [|split; [exact Hall | split; [reflexivity | split; [exact Hload|]]]].
  - unfold rule_set, RuleRepository.ruleset. cbn. rewrite Hinit.
    apply init_cache_consistent.
  - intros c s. cbn. by rewrite lookup_empty.
Qed.

Lemma fresh_state_reachable : reachable sample_settings "watch_rules.json" fresh_state.
Proof. by apply (reachable_start sample_settings "watch_rules.json" Missing (sample_repo [])). Qed.

Lemma started_state_reachable : reachable sample_settings "watch_rules.json" started_state.
Proof. apply reachable_step, fresh_state_reachable. Qed.

Lemma authored_state_reachable :
  reachable sample_settings "watch_rules.json" authored_state.
Proof.
  unfold authored_state. rewrite !run_handler_cons. cbn [run_handler fst].
  do 5 apply reachable_step. apply fresh_state_reachable.
Qed.



(** X7. In every state the bot reaches, every rule of the rule set can be
    saved and loaded back unchanged: its label is not empty and has no
    white space at either end, it has a keyword in [include_all] or
    [include_any], and its chat scope is absent or not empty. *)
Theorem reachable_rules_storable (settings : Settings.t) (path : string) (st : State)
    (r : Rule) :
  reachable settings path st -> r ∈ RuleSet.rules (rule_set st) -> storable r.
Proof.
  intros (_ & Hrules & _)%reachable_bot_inv Hr.
  by apply (proj1 (Forall_forall _ _) Hrules).
Qed.

Lemma reachable_rules_storable_witness :
  storable {| label := "Promo"; include_all := ["buy now"]; include_any := [];
              exclude := ["spam"; "scam"]; chat_ids := Some {[42%Z]} |}.
Proof.
  apply (reachable_rules_storable sample_settings "watch_rules.json" authored_state).
  - apply authored_state_reachable.
  - apply list_elem_of_In. vm_compute. auto.
Defined.

(** X8. In every state the bot reaches, a pending session is stored under
    the id of the chat it was begun in, and that chat is the conversation
    of the requester with themselves: sessions exist for the
    self-conversation only. *)
Theorem sessions_in_self_conversation (settings : Settings.t) (path : string)
    (st : State) (c : Z) (s : PendingRuleSession.t) :
  reachable settings path st ->
  pending_sessions st !! c = Some s ->
  PendingRuleSession.origin_chat_id s = c /\ PendingRuleSession.requested_by s = c.
Proof.
  intros (_ & _ & _ & _ & Hsessions)%reachable_bot_inv Hs.
  by destruct (Hsessions c s Hs) as (_ & Ho & Hr & _).
Qed.

Lemma sessions_in_self_conversation_witness :
  PendingRuleSession.origin_chat_id (PendingRuleSession.init 7%Z 7%Z 42%Z) = 7%Z
  /\ PendingRuleSession.requested_by (PendingRuleSession.init 7%Z 7%Z 42%Z) = 7%Z.
Proof.
  apply (sessions_in_self_conversation sample_settings "watch_rules.json" started_state).
  - apply started_state_reachable.
  - vm_compute. reflexivity.
Defined.

(** ** What one run of the handler can change *)

(** X9. One run of the handler keeps the rules it finds, in their order,
    and appends at most one rule, which is scoped to a single chat; it
    never removes, rewrites or reorders a rule, and never changes the path
    of the rules file. *)
Theorem handler_rules_grow (settings : Settings.t) (st : State) (event : Event.t) :
  let st' := fst (handler settings st event) in
  RuleRepository.path (rule_repo st') = RuleRepository.path (rule_repo st)
  /\ (RuleSet.rules (rule_set st') = RuleSet.rules (rule_set st)
      \/ exists rule t,
           RuleSet.rules (rule_set st') = (RuleSet.rules (rule_set st) ++ [rule])%list
           /\ chat_ids rule = Some {[t]}).
Proof.
  cbv zeta. destruct (handler settings st event) as [st' acts] eqn:Hrun. simpl.
  apply handler_steps in Hrun
    as [->|[->|[(t & ->)|(session & raw & acts' & _ & Hres)]]]; try (split; [done | by left]).
  apply authoring_steps in Hres
    as [->|[(s' & -> & _)|(rule & -> & _ & _ & _ & _ & Hscope)]];
    try (split; [done | by left]).
  split; [reflexivity|]. right. by exists rule, (PendingRuleSession.target_chat_id session).
Qed.

(** X10. One run of the handler touches no session but that of the chat of
    the event: the sessions stored under other chat ids are as before. *)
Theorem handler_other_sessions (settings : Settings.t) (st : State) (event : Event.t)
    (c' : Z) :
  c' ≠ default 0%Z (Event.chat_id event) ->
  pending_sessions (fst (handler settings st event)) !! c' = pending_sessions st !! c'.
Proof.
  intros Hc'. destruct (handler settings st event) as [st' acts] eqn:Hrun. simpl.
  apply handler_steps in Hrun
    as [->|[->|[(t & ->)|(session & raw & acts' & _ & Hres)]]].
  - done.
  - by apply lookup_delete_ne.
  - by apply lookup_insert_ne.
  - apply authoring_steps in Hres as [->|[(s' & -> & _)|(rule & -> & _)]].
    + done.
    + by apply lookup_insert_ne.
    + by apply lookup_delete_ne.
Qed.

Lemma handler_other_sessions_witness :
  pending_sessions (fst (handler sample_settings halfway_state (owner_says_in 6%Z "!cancel")))
    !! 7%Z = Some halfway_session.
Proof.
  rewrite (handler_other_sessions sample_settings halfway_state
             (owner_says_in 6%Z "!cancel") 7%Z).
  - apply lookup_singleton_eq.
  - simpl. lia.
Defined.

Lemma watch_only_appends (settings : Settings.t) (st : State) (event : Event.t)
    (message : Message.t) (raw : string) (c : Z) :
  Forall (fun a => exists record, a = Append record)
         (watch settings st event message raw c).
Proof.
  unfold watch.
  destruct (outside (manual_chat_filter settings) c); [constructor|].
  destruct (match RuleSet.chat_ids (rule_set st) with
            | Some rule_chat_filter => negb (bool_decide (c ∈ rule_chat_filter))
            | None => false
            end); [constructor|].
  destruct (Settings.ignore_self_messages settings && Message.out message); [constructor|].
  destruct (Settings.ignore_bot_messages settings
            && match Message.sender message with
               | Some sender => Sender.bot sender
               | None => false
               end); [constructor|].
  apply Forall_forall. intros a Ha. apply list_elem_of_In, in_map_iff in Ha as (r & <- & _).
  eauto.
Qed.

(** X11. A message that is not outgoing changes nothing: no session is
    created, advanced or cancelled, no rule is added, the rules file is
    left alone, whatever the text says; and the handler answers nothing,
    the only thing it may do is hand records to the sink. *)
Theorem incoming_changes_nothing (settings : Settings.t) (st : State) (event : Event.t)
    (message : Message.t) :
  Event.message event = Some message ->
  Message.out message = false ->
  fst (handler settings st event) = st
  /\ Forall (fun a => exists record, a = Append record) (snd (handler settings st event)).
Proof.
  intros Hmessage Hout. rewrite (handler_incoming _ _ _ _ Hmessage Hout). simpl.
  split; [reflexivity|].
  destruct (Message.text message) as [raw|]; [|constructor].
  destruct (nonempty raw); [apply watch_only_appends | constructor].
Qed.

Lemma incoming_changes_nothing_witness :
  fst (handler sample_settings halfway_state (someone_says 7%Z "!cancel")) = halfway_state.
Proof.
  by destruct (incoming_changes_nothing sample_settings halfway_state
                 (someone_says 7%Z "!cancel") _ eq_refl eq_refl) as [Hst _].
Defined.

(** X12. A start command the owner sends in a chat other than the
    self-conversation is not honoured: no session is created, the rule set
    and the rules file are left alone, and the only answer is the redirect
    notice, sent to the owner's own chat and not to the chat of the
    command. *)
Theorem command_elsewhere_redirected (settings : Settings.t) (st : State)
    (event : Event.t) (message : Message.t) (raw : string) (t : Z) :
  Event.message event = Some message ->
  Message.text message = Some raw ->
  Message.out message = true ->
  Message.sender_id message ≠ Some (default 0%Z (Event.chat_id event)) ->
  watch_target (strip raw) = Some t ->
  handler settings st event = (st, [SendMessage "me" redirect_notice]).
Proof.
  intros Hmessage Htext Hout Hsender Htarget.
  pose proof (watch_target_nonempty _ _ Htarget) as Hraw.
  rewrite (handler_outgoing_elsewhere _ _ _ _ _ Hmessage Htext Hraw Hout Hsender).
  apply watch_target_match in Htarget as [group ->]. reflexivity.
Qed.

Lemma command_elsewhere_redirected_witness :
  handler sample_settings fresh_state (owner_says_in 6%Z "!Watch  -1001234")
  = (fresh_state, [SendMessage "me" redirect_notice]).
Proof.
  apply (command_elsewhere_redirected sample_settings fresh_state
           (owner_says_in 6%Z "!Watch  -1001234") _ "!Watch  -1001234" (-1001234)%Z
           eq_refl eq_refl eq_refl).
  - simpl. discriminate.
  - reflexivity.
Defined.

(** ** The dialogue, step by step *)

(** X13. A start command of the owner in the self-conversation always
    leaves a new session there, at step [label] and with nothing gathered,
    whatever session was pending before; the notice of a replaced session
    is sent exactly when there was one; the rule set and the rules file
    are not touched. *)
Theorem start_command_begins_session (settings : Settings.t) (st : State)
    (event : Event.t) (c : Z) (raw : string) (t : Z) :
  own_message c raw event ->
  watch_target (strip raw) = Some t ->
  let st' := fst (handler settings st event) in
  pending_sessions st' !! c = Some (PendingRuleSession.init c c t)
  /\ rule_repo st' = rule_repo st
  /\ rules_file st' = rules_file st
  /\ (pending_sessions st !! c = None ->
      snd (handler settings st event) = [Respond (onboarding settings t)])
  /\ (forall old, pending_sessions st !! c = Some old ->
      snd (handler settings st event)
      = [Respond "Setup watcher sebelumnya digantikan dengan permintaan baru.";
         Respond (onboarding settings t)]).
Proof.
  intros Hown Htarget. cbv zeta.
  rewrite (handler_start settings st event c raw t Hown Htarget). simpl.
  split; [apply lookup_insert_eq|]. split; [reflexivity|]. split; [reflexivity|].
  split.
  - intros ->. rewrite bool_decide_eq_false_2; [reflexivity | by intros [? ?]].
  - intros old ->. by rewrite bool_decide_eq_true_2.
Qed.

Lemma start_command_begins_session_witness :
  pending_sessions (fst (handler sample_settings halfway_state (owner_says "!watch 42")))
    !! 7%Z = Some (PendingRuleSession.init 7%Z 7%Z 42%Z)
  /\ snd (handler sample_settings halfway_state (owner_says "!watch 42"))
     = [Respond "Setup watcher sebelumnya digantikan dengan permintaan baru.";
        Respond (onboarding sample_settings 42%Z)].
Proof.
  destruct (start_command_begins_session sample_settings halfway_state
              (owner_says "!watch 42") 7%Z "!watch 42" 42%Z
              (owner_says_own "!watch 42") eq_refl)
    as (Hnew & _ & _ & _ & Hnotice).
  split; [exact Hnew|]. apply (Hnotice halfway_session). apply lookup_singleton_eq.
Defined.










(** ** The records handed to the sink *)

Lemma watch_records (settings : Settings.t) (st : State) (event : Event.t)
    (message : Message.t) (raw : string) (c : Z) :
  exists matches,
    matches `sublist_of` RuleSet.match_ (rule_set st) (Some c) raw
    /\ (matches ≠ [] ->
        outside (manual_chat_filter settings) c = false
        /\ (Settings.ignore_self_messages settings && Message.out message = false)
        /\ (Settings.ignore_bot_messages settings
            && match Message.sender message with
               | Some sender => Sender.bot sender
               | None => false
               end = false))
    /\ appended (watch settings st event message raw c)
       = List.map
           (fun rule =>
              {| MessageRecord.label := label rule;
                 MessageRecord.chat_id := c;
                 MessageRecord.chat_name := Event.chat_name event;
                 MessageRecord.username :=
                   match Message.sender message with
                   | Some sender =>
                       match Sender.username sender with
                       | Some u => if nonempty u then Some u else None
                       | None => None
                       end
                   | None => None
                   end;
                 MessageRecord.display_name :=
                   match Message.sender message with
                   | Some sender => Some (Sender.display_name sender)
                   | None => None
                   end;
                 MessageRecord.telegram_id := Message.sender_id message;
                 MessageRecord.message_id := Message.id message;
                 MessageRecord.message_text := raw;
                 MessageRecord.message_link := _build_message_link c (Message.id message);
                 MessageRecord.matched_keywords := _matched_keywords rule raw;
                 MessageRecord.excluded_keywords := exclude rule;
                 MessageRecord.timestamp_utc :=
                   {| instant := Event.utcnow event; tzname := "UTC" |};
                 MessageRecord.timestamp_local :=
                   {| instant := Event.utcnow event;
                      tzname := Settings.timezone settings |} |})
           matches.
Proof.
  unfold watch.
  destruct (outside (manual_chat_filter settings) c);
    [exists []; split; [apply sublist_nil_l | by split]|].
  destruct (match RuleSet.chat_ids (rule_set st) with
            | Some rule_chat_filter => negb (bool_decide (c ∈ rule_chat_filter))
            | None => false
            end); [exists []; split; [apply sublist_nil_l | by split]|].
  destruct (Settings.ignore_self_messages settings && Message.out message);
    [exists []; split; [apply sublist_nil_l | by split]|].
  destruct (Settings.ignore_bot_messages settings
            && match Message.sender message with
               | Some sender => Sender.bot sender
               | None => false
               end); [exists []; split; [apply sublist_nil_l | by split]|].
  exists (RuleSet.match_ (rule_set st) (Some c) raw).
  split; [reflexivity|]. split; [done|]. apply appended_map.
Qed.

(** X16. Every record the handler hands to the sink belongs to a rule that
    [match] returns for the chat and the text of the event: it carries the
    label of the rule, the chat id, the id and the text of the message as
    received (not stripped), the sender id, the keywords of the rule found
    in the text, all the [exclude] keywords of the rule, and the link
    [_build_message_link] builds.  A run that hands a record to the sink
    leaves the state as it is. *)
Theorem logged_record_origin (settings : Settings.t) (st : State) (event : Event.t)
    (record : MessageRecord.t) :
  record ∈ appended (snd (handler settings st event)) ->
  let c := default 0%Z (Event.chat_id event) in
  fst (handler settings st event) = st
  /\ exists message raw rule,
       Event.message event = Some message
       /\ Message.text message = Some raw
       /\ rule ∈ RuleSet.match_ (rule_set st) (Some c) raw
       /\ MessageRecord.label record = label rule
       /\ MessageRecord.chat_id record = c
       /\ MessageRecord.message_id record = Message.id message
       /\ MessageRecord.message_text record = raw
       /\ MessageRecord.telegram_id record = Message.sender_id message
       /\ MessageRecord.matched_keywords record = _matched_keywords rule raw
       /\ MessageRecord.excluded_keywords record = exclude rule
       /\ MessageRecord.message_link record = _build_message_link c (Message.id message).
Proof.
  cbv zeta. destruct (handler settings st event) as [st' acts] eqn:Hrun. simpl.
  apply handler_cases in Hrun
    as [[Hnone _]|(message & raw & Hmessage & Htext & _ & -> & ->)].
  - rewrite Hnone. by intros ?%not_elem_of_nil.
  - destruct (watch_records settings st event message raw
                (default 0%Z (Event.chat_id event))) as (matches & Hsub & _ & ->).
    intros (rule & -> & Hrule)%list_elem_of_fmap. split; [reflexivity|].
    exists message, raw, rule. repeat split; try done.
    by apply (elem_of_sublist _ _ _ Hrule Hsub).
Qed.

Lemma logged_record_origin_witness :
  fst (handler sample_settings unscoped_state (someone_says 6%Z "  Big SALE today"))
  = unscoped_state.
Proof.
  destruct (logged_record_origin sample_settings unscoped_state
              (someone_says 6%Z "  Big SALE today") sale_record) as (Hst & _).
  - vm_compute. apply list_elem_of_here.
  - exact Hst.
Defined.

(** X17. The handler hands the sink at most one record per rule, in the
    order of the rule set: the labels of the records of one run are the
    labels of some of the rules, in their order. *)
Theorem records_follow_rules (settings : Settings.t) (st : State) (event : Event.t) :
  List.map MessageRecord.label (appended (snd (handler settings st event)))
  `sublist_of` List.map label (RuleSet.rules (rule_set st)).
Proof.
  destruct (handler settings st event) as [st' acts] eqn:Hrun. simpl.
  apply handler_cases in Hrun
    as [[Hnone _]|(message & raw & _ & _ & _ & -> & ->)].
  - rewrite Hnone. apply sublist_nil_l.
  - destruct (watch_records settings st event message raw
                (default 0%Z (Event.chat_id event))) as (matches & Hsub & _ & ->).
    rewrite List.map_map. cbn [MessageRecord.label].
    apply (fmap_sublist label). etrans; [exact Hsub | apply match_loop_sublist].
Qed.

Lemma elem_of_matched_keywords (rule : Rule) (text k : string) :
  k ∈ _matched_keywords rule text
  <-> (k ∈ include_all rule \/ k ∈ include_any rule) /\ occurs_in k text.
Proof.
  unfold _matched_keywords.
  rewrite list_elem_of_In, filter_In, <- list_elem_of_In, elem_of_app.
  by rewrite keyword_in_occurs.
Qed.

(** X18. For a rule that [match] returns on a text, the matched keywords
    of the record are the [include_all] and [include_any] keywords that
    occur in the text: all of [include_all] is among them, a keyword of
    [include_any] is among them when that list is not empty, and none of
    the excluded keywords listed beside them occurs in the text.  For a
    well-formed rule the matched keywords are never empty. *)
Theorem matched_keywords_of_match (self : RuleSet.t) (chat_id : option Z)
    (text : string) (rule : Rule) :
  rule ∈ RuleSet.match_ self chat_id text ->
  (forall k, k ∈ _matched_keywords rule text -> occurs_in k text)
  /\ (forall k, k ∈ include_all rule -> k ∈ _matched_keywords rule text)
  /\ (include_any rule ≠ [] ->
      exists k, k ∈ include_any rule /\ k ∈ _matched_keywords rule text)
  /\ (forall k, k ∈ exclude rule -> ~ occurs_in k text)
  /\ (rule_wf rule -> _matched_keywords rule text ≠ []).
Proof.
  intros [_ Hm]%elem_of_match.
  apply rule_matches_conditions in Hm as (_ & Hall & Hany & Hex).
  assert (Hall' : forall k, k ∈ include_all rule -> k ∈ _matched_keywords rule text).
  { intros k Hk. apply elem_of_matched_keywords. split; [by left | by apply Hall]. }
  assert (Hany' : include_any rule ≠ [] ->
                  exists k, k ∈ include_any rule /\ k ∈ _matched_keywords rule text).
  { intros Hne. destruct Hany as [Hnil|(k & Hk & Hocc)]; [done|].
    exists k. split; [done|]. apply elem_of_matched_keywords. split; [by right | done]. }
  split; [by intros k [_ Hocc]%elem_of_matched_keywords|].
  split; [exact Hall'|]. split; [exact Hany'|]. split; [exact Hex|].
  intros [_ [Hne|Hne]] Hnil.
  - destruct (include_all rule) as [|k ks] eqn:Hks; [done|].
    assert (Hk : k ∈ _matched_keywords rule text) by (apply Hall'; apply list_elem_of_here).
    rewrite Hnil in Hk. by apply not_elem_of_nil in Hk.
  - destruct (Hany' Hne) as (k & _ & Hk).
    rewrite Hnil in Hk. by apply not_elem_of_nil in Hk.
Qed.

Lemma matched_keywords_of_match_witness :
  _matched_keywords scoped_rule "This is URGENT, reply asap" ≠ [].
Proof.
  destruct (matched_keywords_of_match (RuleSet.init [scoped_rule]) (Some 5%Z)
              "This is URGENT, reply asap" scoped_rule) as (_ & _ & _ & _ & Hne).
  - apply list_elem_of_In. vm_compute. auto.
  - apply Hne. split; [discriminate | right; discriminate].
Defined.

(** X19. Three settings keep a message out of the log whatever the rules
    say: nothing is handed to the sink when the allow-list of chats is set
    and the chat is not in it, when self messages are ignored and the
    message is outgoing, or when bot messages are ignored and the sender
    is a bot. *)
Theorem suppressed_events (settings : Settings.t) (st : State) (event : Event.t)
    (message : Message.t) :
  Event.message event = Some message ->
  outside (manual_chat_filter settings) (default 0%Z (Event.chat_id event)) = true
  \/ (Settings.ignore_self_messages settings = true /\ Message.out message = true)
  \/ (Settings.ignore_bot_messages settings = true
      /\ exists sender, Message.sender message = Some sender /\ Sender.bot sender = true) ->
  appended (snd (handler settings st event)) = [].
Proof.
  intros Hmessage Hwhy.
  destruct (handler settings st event) as [st' acts] eqn:Hrun. simpl.
  apply handler_cases in Hrun
    as [[Hnone _]|(message' & raw & Hmessage' & _ & _ & _ & ->)]; [exact Hnone|].
  assert (message' = message) as -> by congruence.
  destruct (watch_records settings st event message raw
              (default 0%Z (Event.chat_id event)))
    as (matches & _ & Hpass & ->).
  destruct matches as [|rule matches]; [reflexivity|].
  destruct Hpass as (Hmanual & Hself & Hbot); [done|].
  destruct Hwhy as [H|[[H1 H2]|(H1 & sender & H2 & H3)]].
  - congruence.
  - rewrite H1, H2 in Hself. discriminate.
  - rewrite H1, H2, H3 in Hbot. discriminate.
Qed.

Lemma suppressed_events_witness :
  appended
    (snd (handler
            {| Settings.watch_chat_ids := Some {[5%Z]};
               Settings.timezone := "UTC";
               Settings.ignore_self_messages := true;
               Settings.ignore_bot_messages := true |}
            unscoped_state (someone_says 6%Z "Big SALE today")))
  = [].
Proof.
  apply (suppressed_events _ unscoped_state (someone_says 6%Z "Big SALE today") _ eq_refl).
  left. vm_compute. reflexivity.
Defined.

(** ** Message links *)

Lemma str_of_Z_neg (p : positive) :
  str_of_Z (Z.neg p) = String "-" (str_of_Z (Z.pos p)).
Proof. reflexivity. Qed.

(** X20. [_build_message_link] gives no link for a chat id that is not
    negative.  For a negative chat id the link is [https://t.me/c/], the
    decimal digits of the id without the sign and without a leading [100]
    when there is one, a slash and the message id. *)
Theorem build_message_link_spec (chat_id message_id : Z) :
  ((0 <= chat_id)%Z -> _build_message_link chat_id message_id = None)
  /\ ((chat_id < 0)%Z ->
      _build_message_link chat_id message_id
      = Some ("https://t.me/c/"
              ++ (if String.prefix "100" (str_of_Z (- chat_id))
                  then drop_chars 3 (str_of_Z (- chat_id))
                  else str_of_Z (- chat_id))
              ++ "/" ++ str_of_Z message_id)).
Proof.
  unfold _build_message_link. split; intros Hsign.
  - destruct (Z.geb_spec chat_id 0); [reflexivity | lia].
  - destruct (Z.geb_spec chat_id 0); [lia|].
    destruct chat_id as [|p|p]; try lia.
    change (- Z.neg p)%Z with (Z.pos p). rewrite str_of_Z_neg.
    change (String.prefix "-100" (String "-" (str_of_Z (Z.pos p))))
      with (String.prefix "100" (str_of_Z (Z.pos p))).
    by destruct (String.prefix "100" (str_of_Z (Z.pos p))).
Qed.

Lemma build_message_link_spec_witness :
  _build_message_link (-1001234)%Z 55%Z = Some "https://t.me/c/1234/55"
  /\ _build_message_link 1234%Z 55%Z = None.
Proof.
  destruct (build_message_link_spec (-1001234)%Z 55%Z) as [_ Hneg].
  destruct (build_message_link_spec 1234%Z 55%Z) as [Hpos _].
  split; [rewrite Hneg by lia; reflexivity | apply Hpos; lia].
Defined.

(** ** Printing and reading chat ids *)

Lemma string_of_uint_no_space (d : Decimal.uint) :
  all_chars (fun c => negb (is_space c)) (NilEmpty.string_of_uint d) = true.
Proof. induction d; simpl; try reflexivity; exact IHd. Qed.

Lemma take_digits_string_of_uint (d : Decimal.uint) :
  take_digits (NilEmpty.string_of_uint d) = NilEmpty.string_of_uint d.
Proof.
  induction d; try reflexivity;
    cbn [NilEmpty.string_of_uint take_digits];
    (match goal with
     | |- context [is_digit ?c] => change (is_digit c) with true
     end); cbv iota; by rewrite IHd.
Qed.

Lemma digits_value_pos (d : Decimal.uint) (acc : positive) :
  digits_value (Z.pos acc) true (NilEmpty.string_of_uint d)
  = Some (Z.pos (Pos.of_uint_acc d acc)).
Proof.
  revert acc; induction d; intros acc; try reflexivity;
    cbn [NilEmpty.string_of_uint digits_value Pos.of_uint_acc];
    (match goal with
     | |- context [is_digit ?c] =>
         change (is_digit c) with true;
         let v := eval vm_compute in (digit_value c) in
         change (digit_value c) with v
     end); cbv iota; rewrite <- IHd; f_equal; lia.
Qed.

Lemma digits_value_zero (d : Decimal.uint) (after_digit : bool) :
  after_digit = true \/ d ≠ Decimal.Nil ->
  digits_value 0 after_digit (NilEmpty.string_of_uint d)
  = Some (Z.of_N (Pos.of_uint d)).
Proof.
  revert after_digit; induction d; intros b Hb;
    [destruct Hb as [->|Hb]; [reflexivity | done] | ..];
    cbn [NilEmpty.string_of_uint digits_value Pos.of_uint];
    (match goal with
     | |- context [is_digit ?c] =>
         change (is_digit c) with true;
         let v := eval vm_compute in (digit_value c) in
         change (digit_value c) with v
     end); cbv iota;
    [change (10 * 0 + 0)%Z with 0%Z; apply IHd; by left | ..];
    (match goal with
     | |- digits_value ?z _ _ = _ =>
         let v := eval vm_compute in z in change z with v
     end); apply digits_value_pos.
Qed.

Lemma int_of_str_str_of_Z (z : Z) : int_of_str (str_of_Z z) = Some z.
Proof.
  assert (Hpos : forall p,
            int_of_str (NilEmpty.string_of_uint (Pos.to_uint p)) = Some (Z.pos p)).
  { intros p. unfold int_of_str.
    rewrite (strip_no_space _ (string_of_uint_no_space _)).
    pose proof (DecimalPos.Unsigned.of_to p) as Hof.
    pose proof (DecimalPos.Unsigned.to_uint_nonnil p) as Hnil.
    destruct (Pos.to_uint p) as [|d|d|d|d|d|d|d|d|d|d] eqn:Hd; [done|..];
      cbn [NilEmpty.string_of_uint]; cbv iota beta;
      change (Z.pos p) with (Z.of_N (N.pos p)); rewrite <- Hof;
      match goal with
      | |- _ = Some (Z.of_N (Pos.of_uint ?u)) =>
          apply (digits_value_zero u false); by right
      end. }
  assert (Hshape : forall p,
            NilZero.string_of_uint (Pos.to_uint p)
            = NilEmpty.string_of_uint (Pos.to_uint p)).
  { intros p. pose proof (DecimalPos.Unsigned.to_uint_nonnil p).
    by destruct (Pos.to_uint p). }
  destruct z as [|p|p].
  - reflexivity.
  - unfold str_of_Z. cbn [Z.to_int NilZero.string_of_int]. rewrite Hshape. apply Hpos.
  - unfold str_of_Z. cbn [Z.to_int NilZero.string_of_int]. rewrite Hshape.
    specialize (Hpos p). unfold int_of_str in *.
    rewrite (strip_no_space _ (string_of_uint_no_space _)) in Hpos.
    rewrite (strip_no_space (String "-" _))
      by (cbn [all_chars]; apply (string_of_uint_no_space (Pos.to_uint p))).
    pose proof (DecimalPos.Unsigned.to_uint_nonnil p) as Hnil.
    destruct (Pos.to_uint p) as [|d|d|d|d|d|d|d|d|d|d] eqn:Hd; [done|..];
      cbn [NilEmpty.string_of_uint] in *; cbv iota beta in *; by rewrite Hpos.
Qed.

Lemma watch_match_digits (s : string) :
  starts_with_space s = false ->
  match s with
  | String "-" r => take_digits r = r /\ nonempty r = true
  | _ => take_digits s = s /\ nonempty s = true
  end ->
  watch_match ("!watch " ++ s) = Some s.
Proof.
  intros Hspace Hdigits.
  change ("!watch " ++ s)
    with (String "!" (String "w" (String "a" (String "t" (String "c" (String "h"
            (String " " s))))))).
  unfold watch_match.
  change (strip_prefix_ci "!watch"
            (String "!" (String "w" (String "a" (String "t" (String "c" (String "h"
               (String " " s))))))))
    with (Some (String " " s)).
  cbn [starts_with_space]. change (is_space " ") with true. cbv iota.
  cbn [lstrip]. change (is_space " ") with true. cbv iota.
  assert (Hl : lstrip s = s).
  { destruct s as [|c s]; [reflexivity|]. simpl in *. by rewrite Hspace. }
  rewrite Hl.
  destruct s as [|c s]; [by destruct Hdigits|].
  destruct c as [[] [] [] [] [] [] [] []];
    destruct Hdigits as [Htake Hne]; rewrite Htake, Hne; reflexivity.
Qed.

Lemma watch_match_str_of_Z (t : Z) :
  watch_match ("!watch " ++ str_of_Z t) = Some (str_of_Z t).
Proof.
  assert (Hshape : forall p,
            str_of_Z (Z.pos p) = NilEmpty.string_of_uint (Pos.to_uint p)).
  { intros p. unfold str_of_Z. cbn [Z.to_int NilZero.string_of_int].
    pose proof (DecimalPos.Unsigned.to_uint_nonnil p). by destruct (Pos.to_uint p). }
  destruct t as [|p|p].
  - reflexivity.
  - apply watch_match_digits; rewrite Hshape;
      pose proof (DecimalPos.Unsigned.to_uint_nonnil p) as Hnil;
      pose proof (take_digits_string_of_uint (Pos.to_uint p)) as Htake;
      destruct (Pos.to_uint p); try done; by split.
  - rewrite str_of_Z_neg. apply watch_match_digits; [reflexivity|].
    rewrite Hshape.
    pose proof (DecimalPos.Unsigned.to_uint_nonnil p) as Hnil.
    split; [apply take_digits_string_of_uint|]. by destruct (Pos.to_uint p).
Qed.

Lemma rstrip_no_space (s : string) :
  all_chars (fun c => negb (is_space c)) s = true -> rstrip s = s.
Proof.
  induction s as [|c s IH]; [reflexivity|]. simpl.
  intros [Hc Hs]%andb_true_iff. apply negb_true_iff in Hc.
  rewrite (IH Hs), Hc. by destruct s.
Qed.

Lemma rstrip_String (c : ascii) (s : string) :
  rstrip s = s -> s ≠ "" -> rstrip (String c s) = String c s.
Proof. intros Hs Hne. simpl. rewrite Hs. by destruct s. Qed.

Lemma str_of_Z_no_space (z : Z) :
  all_chars (fun c => negb (is_space c)) (str_of_Z z) = true /\ str_of_Z z ≠ "".
Proof.
  assert (Hpos : forall p,
            all_chars (fun c => negb (is_space c)) (str_of_Z (Z.pos p)) = true
            /\ str_of_Z (Z.pos p) ≠ "").
  { intros p. unfold str_of_Z. cbn [Z.to_int NilZero.string_of_int].
    pose proof (DecimalPos.Unsigned.to_uint_nonnil p) as Hnil.
    pose proof (string_of_uint_no_space (Pos.to_uint p)) as Hno.
    destruct (Pos.to_uint p); try done; by split. }
  destruct z as [|p|p]; [by split | apply Hpos|].
  rewrite str_of_Z_neg. split; [|done]. cbn [all_chars]. apply Hpos.
Qed.

Lemma strip_start_command (t : Z) :
  strip ("!watch " ++ str_of_Z t) = "!watch " ++ str_of_Z t.
Proof.
  destruct (str_of_Z_no_space t) as [Hno Hne].
  change ("!watch " ++ str_of_Z t)
    with (String "!" (String "w" (String "a" (String "t" (String "c" (String "h"
            (String " " (str_of_Z t)))))))).
  unfold strip.
  assert (Hr : rstrip (str_of_Z t) = str_of_Z t) by (by apply rstrip_no_space).
  rewrite rstrip_String; [reflexivity | | done].
  repeat (apply rstrip_String; [|done]). exact Hr.
Qed.

(** X21. Every chat id can be given to the start command in decimal: the
    text [!watch], a space and the decimal form of [t], as [str] prints it,
    is a start command whose target is [t], so the session the handler
    begins for it targets [t]. *)
Theorem start_command_reads_target (settings : Settings.t) (st : State)
    (event : Event.t) (c t : Z) :
  own_message c ("!watch " ++ str_of_Z t) event ->
  watch_target ("!watch " ++ str_of_Z t) = Some t
  /\ pending_sessions (fst (handler settings st event)) !! c
     = Some (PendingRuleSession.init c c t).
Proof.
  intros Hown.
  assert (Htarget : watch_target ("!watch " ++ str_of_Z t) = Some t).
  { unfold watch_target. by rewrite watch_match_str_of_Z, int_of_str_str_of_Z. }
  split; [exact Htarget|].
  rewrite (handler_start settings st event c _ t Hown)
    by (by rewrite strip_start_command).
  apply lookup_insert_eq.
Qed.

Lemma start_command_reads_target_witness :
  pending_sessions
    (fst (handler sample_settings fresh_state (owner_says ("!watch " ++ str_of_Z (-1001234)))))
    !! 7%Z
  = Some (PendingRuleSession.init 7%Z 7%Z (-1001234)%Z).
Proof.
  destruct (start_command_reads_target sample_settings fresh_state
              (owner_says ("!watch " ++ str_of_Z (-1001234))) 7%Z (-1001234)%Z)
    as [_ Hsession].
  - apply owner_says_own.
  - exact Hsession.
Defined.

(** ** Keywords, parsed and printed *)

Lemma all_chars_lstrip (P : ascii -> bool) (s : string) :
  all_chars P s = true -> all_chars P (lstrip s) = true.
Proof.
  induction s as [|c s IH]; [done|]. simpl.
  intros [Hc Hs]%andb_true_iff.
  destruct (is_space c); [by apply IH | simpl; by rewrite Hc, Hs].
Qed.

Lemma all_chars_rstrip (P : ascii -> bool) (s : string) :
  all_chars P s = true -> all_chars P (rstrip s) = true.
Proof.
  induction s as [|c s IH]; [done|]. simpl.
  intros [Hc Hs]%andb_true_iff. specialize (IH Hs).
  destruct (rstrip s) as [|d r].
  - destruct (is_space c); simpl; [reflexivity | by rewrite Hc].
  - cbn [all_chars] in *. by rewrite Hc, IH.
Qed.

Lemma splits_on_runs_no_sep (s : string) (pieces : list string) :
  splits_on_runs s pieces -> Forall (fun p => no_sep p = true) pieces.
Proof. induction 1; by constructor. Qed.

Lemma strip_clean (p : string) :
  no_sep p = true -> strip p ≠ "" -> clean_keyword (strip p).
Proof.
  intros Hp Hne. split; [exact Hne|]. unfold strip. split; [apply lstrip_idem|].
  split; [apply rstrip_lstrip_fixed, rstrip_idem|].
  by apply all_chars_lstrip, all_chars_rstrip.
Qed.

(** X22. Every keyword [_parse_keywords] returns is clean: it is not
    empty, has no white space at either end and holds no comma, semicolon
    or newline. *)
Theorem parse_keywords_clean (raw k : string) :
  k ∈ _parse_keywords raw -> clean_keyword k.
Proof.
  unfold _parse_keywords.
  destruct (negb (nonempty (strip raw))); [by intros ?%not_elem_of_nil|].
  destruct (is_skip_word (lower (strip raw))); [by intros ?%not_elem_of_nil|].
  rewrite list_elem_of_In, filter_In, in_map_iff.
  intros [(p & <- & Hp) Hne]. apply strip_clean; [|by apply nonempty_true].
  pose proof (splits_on_runs_no_sep _ _ (re_split_splits (strip raw))) as Hall.
  by apply (proj1 (Forall_forall _ _) Hall), list_elem_of_In.
Qed.

Lemma parse_keywords_clean_witness : clean_keyword "buy now".
Proof.
  apply (parse_keywords_clean "  Buy,  buy now ;; " "buy now").
  apply list_elem_of_In. vm_compute. auto.
Defined.

Lemma all_chars_app (P : ascii -> bool) (a b : string) :
  all_chars P (a ++ b) = all_chars P a && all_chars P b.
Proof.
  induction a as [|c a IH]; unfold_append; [reflexivity|].
  simpl. by rewrite IH, andb_assoc.
Qed.

Lemma re_split_piece (s : string) : no_sep s = true -> re_split s = [s].
Proof. intros Hs. symmetry. apply splits_on_runs_unique. by constructor. Qed.

Lemma lstrip_app (s x : string) : s ≠ "" -> lstrip s = s -> lstrip (s ++ x) = s ++ x.
Proof.
  destruct s as [|c s]; [done|]. intros _. unfold_append. simpl.
  destruct (is_space c) eqn:Hc; [|done].
  intros H. exfalso.
  assert (Hlen : forall t, String.length (lstrip t) <= String.length t).
  { induction t as [|d t IHt]; simpl; [lia|]. destruct (is_space d); simpl; lia. }
  specialize (Hlen s). rewrite H in Hlen. simpl in Hlen. lia.
Qed.

Lemma rstrip_app (x s : string) : rstrip s = s -> s ≠ "" -> rstrip (x ++ s) = x ++ s.
Proof.
  intros Hs Hne. induction x as [|c x IH]; unfold_append; [exact Hs|].
  apply rstrip_String; [exact IH|]. destruct x; unfold_append; [exact Hne | done].
Qed.

Lemma join_cons2 (sep k k' : string) (ks : list string) :
  join sep (k :: k' :: ks) = k ++ sep ++ join sep (k' :: ks).
Proof. reflexivity. Qed.

Lemma join_clean (k : string) (ks : list string) :
  Forall clean_keyword (k :: ks) ->
  join ", " (k :: ks) ≠ ""
  /\ lstrip (join ", " (k :: ks)) = join ", " (k :: ks)
  /\ rstrip (join ", " (k :: ks)) = join ", " (k :: ks).
Proof.
  revert k; induction ks as [|k' ks IH]; intros k Hall.
  - apply Forall_cons in Hall as [(Hne & Hl & Hr & _) _]. by repeat split.
  - apply Forall_cons in Hall as [(Hne & Hl & Hr & _) Hall].
    destruct (IH k' Hall) as (Hne' & _ & Hr').
    rewrite join_cons2. split; [|split].
    + destruct k; [done | by unfold_append].
    + by apply lstrip_app.
    + rewrite <- !append_assoc. by apply rstrip_app.
Qed.

Lemma re_split_join (p k : string) (ks : list string) :
  no_sep p = true -> Forall clean_keyword (k :: ks) ->
  re_split (p ++ join ", " (k :: ks)) = (p ++ k) :: List.map (String " ") ks.
Proof.
  revert p k; induction ks as [|k' ks IH]; intros p k Hp Hall.
  - apply Forall_cons in Hall as [(_ & _ & _ & Hk) _]. simpl.
    apply re_split_piece. unfold no_sep in *. by rewrite all_chars_app, Hp, Hk.
  - apply Forall_cons in Hall as [(_ & _ & _ & Hk) Hall].
    rewrite join_cons2.
    change (", " ++ join ", " (k' :: ks)) with ("," ++ " " ++ join ", " (k' :: ks)).
    rewrite <- (append_assoc p k).
    rewrite (re_split_no_sep (p ++ k) _ "" (List.map (String " ") (k' :: ks))).
    + by rewrite append_empty_r.
    + unfold no_sep in *. by rewrite all_chars_app, Hp, Hk.
    + rewrite re_split_run; [|done|reflexivity|reflexivity].
      f_equal. by rewrite (IH " " k').
Qed.

Lemma strip_padded (k : string) : clean_keyword k -> strip (String " " k) = k.
Proof.
  intros (Hne & Hl & Hr & _). unfold strip.
  rewrite rstrip_String by done. exact Hl.
Qed.

Lemma strip_padded_all (ks : list string) :
  Forall clean_keyword ks ->
  List.filter nonempty (List.map strip (List.map (String " ") ks)) = ks.
Proof.
  induction 1 as [|k ks Hk _ IH]; [reflexivity|].
  cbn [List.map List.filter]. rewrite (strip_padded k Hk).
  destruct Hk as (Hne & _). apply nonempty_true in Hne. by rewrite Hne, IH.
Qed.

Lemma has_comma_not_skip (s : string) :
  has_char "," s = true -> is_skip_word (lower s) = false.
Proof.
  intros Hs. apply not_true_is_false. unfold is_skip_word.
  rewrite !orb_true_iff, !String.eqb_eq. intros Hword.
  assert (Hlower : has_char "," (lower s) = true).
  { clear Hword. induction s as [|c s IH]; [done|]. cbn [has_char lower] in *.
    apply orb_true_iff in Hs as [Hc|Hs].
    - apply Ascii.eqb_eq in Hc as <-. reflexivity.
    - rewrite (IH Hs). apply orb_true_r. }
  destruct Hword as [[H|H]|H]; rewrite H in Hlower; discriminate.
Qed.

Lemma has_comma_join (k k' : string) (ks : list string) :
  has_char "," (join ", " (k :: k' :: ks)) = true.
Proof.
  rewrite join_cons2. induction k as [|c k IH]; unfold_append; [reflexivity|].
  cbn [has_char]. rewrite IH. apply orb_true_r.
Qed.

(** X23. What [_fmt_keywords] prints, [_parse_keywords] reads back: for a
    list of clean keywords that is not a single [-], [skip] or [none]
    (in any case of letters), parsing the printed list gives the list
    again; the empty list is printed as [-] and read back as empty. *)
Theorem parse_fmt_keywords (ks : list string) :
  Forall clean_keyword ks ->
  (forall k, ks = [k] -> is_skip_word (lower k) = false) ->
  _parse_keywords (_fmt_keywords ks) = ks.
Proof.
  intros Hall Hskip. destruct ks as [|k ks]; [reflexivity|].
  change (_fmt_keywords (k :: ks)) with (join ", " (k :: ks)).
  destruct (join_clean k ks Hall) as (Hne & Hl & Hr).
  assert (Hstrip : strip (join ", " (k :: ks)) = join ", " (k :: ks))
    by (unfold strip; by rewrite Hr, Hl).
  unfold _parse_keywords. rewrite Hstrip.
  apply nonempty_true in Hne. rewrite Hne. cbn [negb].
  assert (Hword : is_skip_word (lower (join ", " (k :: ks))) = false).
  { destruct ks as [|k' ks]; [by apply Hskip|]. apply has_comma_not_skip, has_comma_join. }
  rewrite Hword.
  rewrite <- (append_Empty (join ", " (k :: ks))), (re_split_join "" k ks eq_refl Hall).
  rewrite append_Empty. cbn [List.map List.filter].
  apply Forall_cons in Hall as [Hk Hall].
  assert (Hk' : strip k = k) by (destruct Hk as (_ & Hkl & Hkr & _); unfold strip; congruence).
  rewrite Hk'. destruct Hk as (Hkne & _). apply nonempty_true in Hkne. rewrite Hkne.
  f_equal. by apply strip_padded_all.
Qed.

Lemma parse_fmt_keywords_witness :
  _parse_keywords (_fmt_keywords ["buy now"; "sale"; "buy now"])
  = ["buy now"; "sale"; "buy now"].
Proof.
  apply parse_fmt_keywords.
  - repeat constructor; discriminate.
  - intros k. discriminate.
Defined.

(** ** The repository and its file *)



(** ** Settings read from the environment *)

Lemma config_loop_ids (acc : gset Z) (chunks : list string) (s : gset Z) (z : Z) :
  config._parse_chat_ids_loop acc chunks = config.Return s ->
  z ∈ s ->
  z ∈ acc \/ exists chunk, chunk ∈ chunks /\ int_of_str (strip chunk) = Some z.
Proof.
  revert acc; induction chunks as [|chunk chunks IH]; intros acc; simpl.
  - intros [= <-] Hz. by left.
  - destruct (negb (nonempty (strip chunk))).
    + intros Hloop Hz. destruct (IH _ Hloop Hz) as [?|(c & Hc & Hint)]; [by left|].
      right. exists c. split; [by apply list_elem_of_further | done].
    + destruct (int_of_str (strip chunk)) as [z'|] eqn:Hint'; [|discriminate].
      intros Hloop Hz. destruct (IH _ Hloop Hz) as [Hin|(c & Hc & Hint)].
      * apply elem_of_union in Hin as [?|Hin]; [by left|].
        apply elem_of_singleton in Hin as ->.
        right. exists chunk. split; [apply list_elem_of_here | done].
      * right. exists c. split; [by apply list_elem_of_further | done].
Qed.

(** X25. When [_parse_chat_ids] of [config.py] returns, it returns no set
    or a set that is not empty, each of whose members is the integer of a
    comma-separated chunk of the value; so the allow-list the handler
    filters by is the very value stored in the settings. *)
Theorem watch_chat_ids_parsed (raw : string) (r : option (gset Z)) :
  config._parse_chat_ids (Some raw) = config.Return r ->
  r ≠ Some ∅
  /\ (forall s z, r = Some s -> z ∈ s ->
        exists chunk, chunk ∈ config.split_commas raw /\ int_of_str (strip chunk) = Some z)
  /\ (forall settings, Settings.watch_chat_ids settings = r ->
        manual_chat_filter settings = r).
Proof.
  unfold config._parse_chat_ids.
  destruct (negb (nonempty raw)).
  { intros [= <-]. split; [done|]. split; [done|].
    intros settings Hr. unfold manual_chat_filter. by rewrite Hr. }
  destruct (config._parse_chat_ids_loop ∅ (config.split_commas raw)) as [s|] eqn:Hloop;
    [|discriminate].
  intros [= <-]. case_bool_decide as Hs.
  - split; [done|]. split; [done|].
    intros settings Hr. unfold manual_chat_filter. by rewrite Hr.
  - split; [congruence|]. split.
    + intros s' z [= <-] Hz.
      destruct (config_loop_ids _ _ _ _ Hloop Hz) as [Hin|Hchunk]; [set_solver | done].
    + intros settings Hr. unfold manual_chat_filter, scoped. rewrite Hr.
      by rewrite bool_decide_eq_false_2.
Qed.

Lemma watch_chat_ids_parsed_witness :
  manual_chat_filter
    {| Settings.watch_chat_ids := Some {[12%Z; (-100345)%Z]};
       Settings.timezone := "UTC";
       Settings.ignore_self_messages := true;
       Settings.ignore_bot_messages := true |}
  = Some {[12%Z; (-100345)%Z]}.
Proof.
  destruct (watch_chat_ids_parsed " 12, -100345 ,,12 ," (Some {[12%Z; (-100345)%Z]}))
    as (_ & _ & Hfilter).
  - vm_compute. reflexivity.
  - by apply Hfilter.
Defined.










